(** * Worker-pool web scraper (web-scrapper-with-worker-pool/main.go)

    A shallow embedding of the scraper's goroutines, its three unbuffered
    channels and its [sync.WaitGroup] as a labelled transition system, and
    the properties of the pipeline proved over every interleaving.

    Conventions.
    - Go's [int], [int64] and [time.Duration] are [Z].
    - Standard output ([fmt.Printf], [printResult]) is not part of the
      state; [resultCount] in [resultCollector] feeds only [Printf].
    - [numWorkers] and [urls] are local constants of [main]
      ([main_numWorkers], [main_urls]); the transition system takes them as
      the parameters [N] and [urls] so that statements can range over them.
    - The worker started as [go worker(i, ...)] sits at position [i - 1] of
      the [workers] list.

    The file goes on to the collector's output and the summary [main]
    prints, and to the repository's chat programs: the websocket server
    and its page. *)

From stdpp Require Import base list strings gmap.
From Stdlib Require Import ZArith Lia.

(* ------------------------------------------------------------------ *)
(** ** Data model *)

(** [time.Duration] is an int64 count of nanoseconds. *)
Definition time_Duration := Z.

(** A non-nil value of Go's [error] interface; [nil] is [None] below. *)
Record error := errorString { error_msg : string }.

(** The two fields of [*http.Response] that the scraper reads. *)
Record Response := mkResponse {
  resp_StatusCode : Z;
  resp_ContentLength : Z;
}.

(** [type ScrapeResult struct] *)
Record ScrapeResult := mkScrapeResult {
  URL : string;
  StatusCode : Z;
  ContentLength : Z;
  Duration : time_Duration;
  Error : option error;
}.

(** What [scrapeURL] needs from outside the program: the clock and the
    network.  [http_Get] returns either a response or a non-nil error (the
    contract of [http.Get]: the response is non-nil exactly when the error
    is nil), together with the world after the call. *)
Class Env := {
  World : Type;
  time_Time : Type;
  time_Now : World -> time_Time;
  time_Since : time_Time -> World -> time_Duration;
  http_Get : string -> World -> (Response + error) * World;
  Body_Close : Response -> World -> World;
}.

(** [func scrapeURL(url string) ScrapeResult].  The deferred
    [resp.Body.Close()] runs after the result has been built. *)
Definition scrapeURL {E : Env} (url : string) (w : World) : ScrapeResult * World :=
  let start := time_Now w in
  match http_Get url w with
  | (inr err, w1) =>
      ({| URL := url; StatusCode := 0; ContentLength := 0;
          Duration := time_Since start w1; Error := Some err |}, w1)
  | (inl resp, w1) =>
      ({| URL := url; StatusCode := resp_StatusCode resp;
          ContentLength := resp_ContentLength resp;
          Duration := time_Since start w1; Error := None |},
       Body_Close resp w1)
  end.

(** The local constants of [main]. *)
Definition main_urls : list string :=
  [ "https://httpbin.org/delay/1"; "https://httpbin.org/delay/2";
    "https://httpbin.org/delay/1"; "https://httpbin.org/get";
    "https://httpbin.org/delay/3"; "https://httpbin.org/status/200";
    "https://httpbin.org/delay/1"; "https://httpbin.org/json" ].

Definition main_numWorkers : Z := 4.

(* ------------------------------------------------------------------ *)
(** ** Goroutines *)

(** Program points of [main]. *)
Inductive MainPC :=
| MGoFeeder                                (* before [go func() { feeder }()] *)
| MGoCollector                             (* before [go resultCollector(...)] *)
| MLoop (i : Z)                            (* loop head: test [i <= numWorkers], then [wg.Add(1)] *)
| MGoWorker (i : Z)                        (* before [go worker(i, ...)]; then [i++] *)
| MGoCoordinator                           (* before [go func() { wg.Wait(); close }()] *)
| MRecvDone                                (* blocked in [results := <-done] *)
| MFinished (results : list ScrapeResult). (* after the receive *)

(** The anonymous URL feeder: [FSend (u :: rest)] is blocked in
    [urlChannel <- u]; [FSend []] is about to [close(urlChannel)]. *)
Inductive Feeder :=
| FSend (rest : list string)
| FExited.

(** [func worker]. *)
Inductive Worker :=
| WRange                          (* at [for url := range urlChannel] *)
| WScrape (url : string)          (* holds [url], about to call [scrapeURL] *)
| WSend (result : ScrapeResult)   (* blocked in [resultChannel <- result] *)
| WDefer                          (* loop left, deferred [wg.Done()] pending *)
| WExited.

(** [func resultCollector]. *)
Inductive Collector :=
| CRange (results : list ScrapeResult)    (* at [for result := range resultChannel] *)
| CSendDone (results : list ScrapeResult) (* blocked in [done <- results] *)
| CExited.

(** The anonymous coordinator goroutine. *)
Inductive Coordinator :=
| KWait     (* blocked in [wg.Wait()] *)
| KClose    (* about to [close(resultChannel)] *)
| KExited.

(** The whole program.  A goroutine that has not been started yet is
    [None]; an unbuffered channel has no content, only its closed flag. *)
Record Pool := mkPool {
  main : MainPC;
  feeder : option Feeder;
  collector : option Collector;
  workers : list Worker;
  coordinator : option Coordinator;
  wg : Z;
  urlClosed : bool;
  resultClosed : bool;
  panicked : bool;
}.

Definition set_main (m : MainPC) (s : Pool) : Pool :=
  mkPool m (feeder s) (collector s) (workers s) (coordinator s) (wg s)
         (urlClosed s) (resultClosed s) (panicked s).
Definition set_feeder (f : option Feeder) (s : Pool) : Pool :=
  mkPool (main s) f (collector s) (workers s) (coordinator s) (wg s)
         (urlClosed s) (resultClosed s) (panicked s).
Definition set_collector (c : option Collector) (s : Pool) : Pool :=
  mkPool (main s) (feeder s) c (workers s) (coordinator s) (wg s)
         (urlClosed s) (resultClosed s) (panicked s).
Definition set_workers (ws : list Worker) (s : Pool) : Pool :=
  mkPool (main s) (feeder s) (collector s) ws (coordinator s) (wg s)
         (urlClosed s) (resultClosed s) (panicked s).
Definition set_coordinator (k : option Coordinator) (s : Pool) : Pool :=
  mkPool (main s) (feeder s) (collector s) (workers s) k (wg s)
         (urlClosed s) (resultClosed s) (panicked s).
Definition set_wg (n : Z) (s : Pool) : Pool :=
  mkPool (main s) (feeder s) (collector s) (workers s) (coordinator s) n
         (urlClosed s) (resultClosed s) (panicked s).
Definition set_urlClosed (b : bool) (s : Pool) : Pool :=
  mkPool (main s) (feeder s) (collector s) (workers s) (coordinator s) (wg s)
         b (resultClosed s) (panicked s).
Definition set_resultClosed (b : bool) (s : Pool) : Pool :=
  mkPool (main s) (feeder s) (collector s) (workers s) (coordinator s) (wg s)
         (urlClosed s) b (panicked s).

(** A run-time panic (send on a closed channel, close of a closed channel,
    negative WaitGroup counter) stops the program. *)
Definition panic (s : Pool) : Pool :=
  mkPool (main s) (feeder s) (collector s) (workers s) (coordinator s) (wg s)
         (urlClosed s) (resultClosed s) true.

(** State of [main] at its first statement. *)
Definition init : Pool :=
  mkPool MGoFeeder None None [] None 0 false false false.

(* ------------------------------------------------------------------ *)
(** ** Transitions *)

(** The scheduler's choice: which goroutine (or which rendezvous over an
    unbuffered channel) moves next.  [AScrape] also fixes the world in
    which the worker's call of [scrapeURL] runs. *)
Inductive Action {E : Env} :=
| AMain
| AFeed (i : nat)
| ACloseUrl
| ARangeEnd (i : nat)
| AScrape (i : nat) (w : World)
| AResult (i : nat)
| ADone (i : nat)
| AWait
| ACloseResult
| ACollectorEnd.

(** What a transition does, as seen from outside. *)
Inductive Event :=
| EvTau
| EvPanic
| EvFeed (i : nat) (url : string)                    (* worker [i] received [url] *)
| EvCloseUrl                                         (* [close(urlChannel)] *)
| EvScrape (i : nat) (url : string) (r : ScrapeResult) (* worker [i] ran [scrapeURL(url)] *)
| EvResult (i : nat) (r : ScrapeResult)              (* collector received [r] from worker [i] *)
| EvDone (i : nat)                                   (* worker [i] ran [wg.Done()] *)
| EvCloseResult                                      (* [close(resultChannel)] *)
| EvDeliver (rs : list ScrapeResult).                (* [main] received [rs] on [done] *)

(** [main], one statement at a time.  The receive on [done] is a
    rendezvous with the collector's [done <- results]. *)
Definition main_step (N : Z) (urls : list string) (s : Pool) : option (Event * Pool) :=
  match main s with
  | MGoFeeder =>
      Some (EvTau, set_feeder (Some (FSend urls)) (set_main MGoCollector s))
  | MGoCollector =>
      Some (EvTau, set_collector (Some (CRange [])) (set_main (MLoop 1) s))
  | MLoop i =>
      if (i <=? N)%Z
      then Some (EvTau, set_wg (wg s + 1)%Z (set_main (MGoWorker i) s))
      else Some (EvTau, set_main MGoCoordinator s)
  | MGoWorker i =>
      Some (EvTau, set_workers (workers s ++ [WRange]) (set_main (MLoop (i + 1)%Z) s))
  | MGoCoordinator =>
      Some (EvTau, set_coordinator (Some KWait) (set_main MRecvDone s))
  | MRecvDone =>
      match collector s with
      | Some (CSendDone rs) =>
          Some (EvDeliver rs, set_collector (Some CExited) (set_main (MFinished rs) s))
      | _ => None
      end
  | MFinished _ => None
  end.

(** [urlChannel <- url] in the feeder meets [range urlChannel] in worker [i]. *)
Definition feed_step (i : nat) (s : Pool) : option (Event * Pool) :=
  match feeder s with
  | Some (FSend (u :: rest)) =>
      if urlClosed s then Some (EvPanic, panic s)
      else match workers s !! i with
           | Some WRange =>
               Some (EvFeed i u,
                     set_workers (<[i := WScrape u]> (workers s))
                                 (set_feeder (Some (FSend rest)) s))
           | _ => None
           end
  | _ => None
  end.

(** [close(urlChannel)] once the feeder's loop over [urls] is over. *)
Definition closeUrl_step (s : Pool) : option (Event * Pool) :=
  match feeder s with
  | Some (FSend []) =>
      if urlClosed s then Some (EvPanic, panic s)
      else Some (EvCloseUrl, set_urlClosed true (set_feeder (Some FExited) s))
  | _ => None
  end.

(** [worker]: the steps that involve worker [i] alone. *)
Definition worker_step {E : Env} (a : Action) (s : Pool) : option (Event * Pool) :=
  match a with
  | ARangeEnd i =>
      match workers s !! i with
      | Some WRange =>
          if urlClosed s
          then Some (EvTau, set_workers (<[i := WDefer]> (workers s)) s)
          else None
      | _ => None
      end
  | AScrape i w =>
      match workers s !! i with
      | Some (WScrape u) =>
          let r := fst (scrapeURL u w) in
          Some (EvScrape i u r, set_workers (<[i := WSend r]> (workers s)) s)
      | _ => None
      end
  | ADone i =>
      match workers s !! i with
      | Some WDefer =>
          if (wg s - 1 <? 0)%Z then Some (EvPanic, panic s)
          else Some (EvDone i,
                     set_wg (wg s - 1)%Z (set_workers (<[i := WExited]> (workers s)) s))
      | _ => None
      end
  | _ => None
  end.

(** [resultChannel <- result] in worker [i] meets [range resultChannel] in
    the collector, which appends the result. *)
Definition result_step (i : nat) (s : Pool) : option (Event * Pool) :=
  match workers s !! i with
  | Some (WSend r) =>
      if resultClosed s then Some (EvPanic, panic s)
      else match collector s with
           | Some (CRange rs) =>
               Some (EvResult i r,
                     set_collector (Some (CRange (rs ++ [r])))
                                   (set_workers (<[i := WRange]> (workers s)) s))
           | _ => None
           end
  | _ => None
  end.

(** The coordinator: [wg.Wait()] returns when the counter is zero, then
    [close(resultChannel)]. *)
Definition coordinator_step {E : Env} (a : Action) (s : Pool) : option (Event * Pool) :=
  match a, coordinator s with
  | AWait, Some KWait =>
      if (wg s =? 0)%Z then Some (EvTau, set_coordinator (Some KClose) s) else None
  | ACloseResult, Some KClose =>
      if resultClosed s then Some (EvPanic, panic s)
      else Some (EvCloseResult, set_resultClosed true (set_coordinator (Some KExited) s))
  | _, _ => None
  end.

(** [resultCollector]: its range loop ends when [resultChannel] is closed. *)
Definition resultCollector_step (s : Pool) : option (Event * Pool) :=
  match collector s with
  | Some (CRange rs) =>
      if resultClosed s then Some (EvTau, set_collector (Some (CSendDone rs)) s)
      else None
  | _ => None
  end.

Definition step {E : Env} (N : Z) (urls : list string) (a : Action) (s : Pool)
  : option (Event * Pool) :=
  if panicked s then None else
  match a with
  | AMain => main_step N urls s
  | AFeed i => feed_step i s
  | ACloseUrl => closeUrl_step s
  | ARangeEnd _ | AScrape _ _ | ADone _ => worker_step a s
  | AResult i => result_step i s
  | AWait | ACloseResult => coordinator_step a s
  | ACollectorEnd => resultCollector_step s
  end.

(** A schedule run from a state, with the events it produces. *)
Fixpoint run {E : Env} (N : Z) (urls : list string) (acts : list Action) (s : Pool)
  : option (list Event * Pool) :=
  match acts with
  | [] => Some ([], s)
  | a :: acts' =>
      match step N urls a s with
      | Some (e, s1) =>
          match run N urls acts' s1 with
          | Some (tr, s2) => Some (e :: tr, s2)
          | None => None
          end
      | None => None
      end
  end.

(** The states a program run can be in, with the events so far. *)
Inductive Reach {E : Env} (N : Z) (urls : list string) : list Event -> Pool -> Prop :=
| Reach_init : Reach N urls [] init
| Reach_step tr s a e s' :
    Reach N urls tr s -> step N urls a s = Some (e, s') ->
    Reach N urls (tr ++ [e]) s'.

(* ------------------------------------------------------------------ *)
(** ** Observations on traces *)

(** The URLs handed to workers, in the order of the hand-offs. *)
Definition fed (tr : list Event) : list string :=
  omap (fun e => match e with EvFeed _ u => Some u | _ => None end) tr.

(** Each hand-off with the worker that received it. *)
Definition feeds (tr : list Event) : list (nat * string) :=
  omap (fun e => match e with EvFeed i u => Some (i, u) | _ => None end) tr.

Definition fed_to (i : nat) (tr : list Event) : list string :=
  omap (fun e => match e with
                 | EvFeed j u => if decide (j = i) then Some u else None
                 | _ => None
                 end) tr.

(** The calls of [scrapeURL], in order: argument and result. *)
Definition scrapes (tr : list Event) : list (string * ScrapeResult) :=
  omap (fun e => match e with EvScrape _ u r => Some (u, r) | _ => None end) tr.

Definition scrapes_of (i : nat) (tr : list Event) : list (string * ScrapeResult) :=
  omap (fun e => match e with
                 | EvScrape j u r => if decide (j = i) then Some (u, r) else None
                 | _ => None
                 end) tr.

(** The results received by the collector, in arrival order. *)
Definition arrivals (tr : list Event) : list ScrapeResult :=
  omap (fun e => match e with EvResult _ r => Some r | _ => None end) tr.

Definition results_of (i : nat) (tr : list Event) : list ScrapeResult :=
  omap (fun e => match e with
                 | EvResult j r => if decide (j = i) then Some r else None
                 | _ => None
                 end) tr.

(** The workers that have signalled [wg.Done()], in order. *)
Definition dones (tr : list Event) : list nat :=
  omap (fun e => match e with EvDone i => Some i | _ => None end) tr.

Definition url_closes (tr : list Event) : list unit :=
  omap (fun e => match e with EvCloseUrl => Some tt | _ => None end) tr.

Definition result_closes (tr : list Event) : list unit :=
  omap (fun e => match e with EvCloseResult => Some tt | _ => None end) tr.

(** The collections received by [main] on [done]. *)
Definition delivered (tr : list Event) : list (list ScrapeResult) :=
  omap (fun e => match e with EvDeliver rs => Some rs | _ => None end) tr.

Definition ev_worker (e : Event) : option nat :=
  match e with
  | EvFeed i _ | EvScrape i _ _ | EvResult i _ | EvDone i => Some i
  | _ => None
  end.

(* ------------------------------------------------------------------ *)
(** ** Quantities of a state *)

Definition alive (w : Worker) : nat :=
  match w with WExited => 0 | _ => 1 end.

(** Workers started and not yet past their [wg.Done()]. *)
Definition live (ws : list Worker) : nat := sum_list_with alive ws.

(** The task a worker holds between receiving it and handing its result on. *)
Definition inflight (w : Worker) : list string :=
  match w with
  | WScrape u => [u]
  | WSend r => [URL r]
  | _ => []
  end.

(** The URL a worker has received and not yet scraped, and the result it
    has built and not yet handed on. *)
Definition holding (w : Worker) : list string :=
  match w with WScrape u => [u] | _ => [] end.

Definition held (w : Worker) : list ScrapeResult :=
  match w with WSend r => [r] | _ => [] end.

Definition to_scrape (w : option Worker) : list string :=
  match w with Some w => holding w | None => [] end.

Definition to_send (w : option Worker) : list ScrapeResult :=
  match w with Some w => held w | None => [] end.

Definition past_loop (w : Worker) : Prop :=
  match w with WDefer | WExited => True | _ => False end.

Definition feeder_exited (f : option Feeder) : bool :=
  match f with Some FExited => true | _ => false end.

Definition coordinator_exited (k : option Coordinator) : bool :=
  match k with Some KExited => true | _ => false end.

Definition is_finished (s : Pool) : bool :=
  match main s with MFinished _ => true | _ => false end.

(** The collector's slice [results]: with the collector while it runs,
    with [main] once it has been sent on [done]. *)
Definition collection (s : Pool) : list ScrapeResult :=
  match collector s, main s with
  | Some (CRange rs), _ | Some (CSendDone rs), _ => rs
  | _, MFinished rs => rs
  | _, _ => []
  end.

(** [r] is what [scrapeURL url] returned in some world. *)
Definition is_scrape {E : Env} (url : string) (r : ScrapeResult) : Prop :=
  exists w, r = fst (scrapeURL url w).

(** Steps still ahead of each goroutine, those of the goroutines it has
    yet to start included: a variant of [step]. *)
Definition main_weight (N : Z) (urls : list string) (m : MainPC) : nat :=
  match m with
  | MGoFeeder => 4 * Z.to_nat N + 4 * length urls + 10
  | MGoCollector => 4 * Z.to_nat N + 8
  | MLoop i => 4 * Z.to_nat (N + 1 - i) + 5
  | MGoWorker i => 4 * Z.to_nat (N - i) + 8
  | MGoCoordinator => 4
  | MRecvDone => 1
  | MFinished _ => 0
  end.

Definition feeder_weight (f : option Feeder) : nat :=
  match f with
  | Some (FSend rest) => 4 * length rest + 1
  | Some FExited | None => 0
  end.

Definition worker_weight (w : Worker) : nat :=
  match w with
  | WRange => 2
  | WScrape _ => 5
  | WSend _ => 4
  | WDefer => 1
  | WExited => 0
  end.

Definition collector_weight (c : option Collector) : nat :=
  match c with
  | Some (CRange _) => 2
  | Some (CSendDone _) => 1
  | Some CExited | None => 0
  end.

Definition coordinator_weight (k : option Coordinator) : nat :=
  match k with
  | Some KWait => 2
  | Some KClose => 1
  | Some KExited | None => 0
  end.

Definition weight (N : Z) (urls : list string) (s : Pool) : nat :=
  main_weight N urls (main s) + feeder_weight (feeder s)
  + sum_list_with worker_weight (workers s)
  + collector_weight (collector s) + coordinator_weight (coordinator s)
  + (if panicked s then 0 else 1).

(* ------------------------------------------------------------------ *)
(** ** A scheduler *)

(** Every action that could be enabled in [s]; hand-offs to all workers
    come before their scrapes, so that the workers run side by side. *)
Definition candidates {E : Env} (w0 : World) (s : Pool) : list Action :=
  let ids := seq 0 (length (workers s)) in
  [AMain; ACloseUrl; AWait; ACloseResult; ACollectorEnd]
  ++ (AFeed <$> ids) ++ ((fun i => AScrape i w0) <$> ids)
  ++ (AResult <$> ids) ++ (ARangeEnd <$> ids) ++ (ADone <$> ids).

Fixpoint first_enabled {E : Env} (N : Z) (urls : list string)
    (cands : list Action) (s : Pool) : option (Action * Pool) :=
  match cands with
  | [] => None
  | a :: cands' =>
      match step N urls a s with
      | Some (_, s') => Some (a, s')
      | None => first_enabled N urls cands' s
      end
  end.

(** The schedule that always takes the first enabled candidate. *)
Fixpoint schedule {E : Env} (N : Z) (urls : list string) (w0 : World)
    (fuel : nat) (s : Pool) : list Action :=
  match fuel with
  | O => []
  | S fuel' =>
      match first_enabled N urls (candidates w0 s) s with
      | Some (a, s') => a :: schedule N urls w0 fuel' s'
      | None => []
      end
  end.

(** A world for running the program: the clock in milliseconds; one
    endpoint of [main_urls] is unreachable. *)
Definition demo_Get (url : string) (w : Z) : (Response + error) * Z :=
  if decide (url = "https://httpbin.org/delay/3")
  then (inr (errorString "context deadline exceeded"), (w + 3000)%Z)
  else (inl (mkResponse 200 (Z.of_nat (String.length url))), (w + 1000)%Z).

Definition demo_env : Env :=
  {| World := Z; time_Time := Z;
     time_Now := fun w => w;
     time_Since := fun t w => (w - t)%Z;
     http_Get := demo_Get;
     Body_Close := fun _ w => w |}.

(** A network on which every request succeeds, and one on which none does. *)
Definition up_env : Env :=
  {| World := Z; time_Time := Z;
     time_Now := fun w => w;
     time_Since := fun t w => (w - t)%Z;
     http_Get := fun _ w => (inl (mkResponse 200 0), (w + 1)%Z);
     Body_Close := fun _ w => w |}.

Definition down_env : Env :=
  {| World := Z; time_Time := Z;
     time_Now := fun w => w;
     time_Since := fun t w => (w - t)%Z;
     http_Get := fun _ w => (inr (errorString "no route to host"), (w + 1)%Z);
     Body_Close := fun _ w => w |}.

(** The scheduler's run of a configuration, for evaluating the program:
    its schedule, the trace and final state it reaches, and the
    collection [main] ends with. *)
Definition sched_acts (E : Env) (w0 : World) (N : Z) (urls : list string)
  : list Action :=
  schedule N urls w0 200 init.

Definition sched_end (E : Env) (w0 : World) (N : Z) (urls : list string)
  : list Event * Pool :=
  default ([], init) (run N urls (sched_acts E w0 N urls) init).

Definition sched_trace (E : Env) (w0 : World) (N : Z) (urls : list string)
  : list Event :=
  (sched_end E w0 N urls).1.

Definition sched_state (E : Env) (w0 : World) (N : Z) (urls : list string)
  : Pool :=
  (sched_end E w0 N urls).2.

Definition sched_results (E : Env) (w0 : World) (N : Z) (urls : list string)
  : list ScrapeResult :=
  match main (sched_state E w0 N urls) with
  | MFinished rs => rs
  | _ => []
  end.

Definition probe_urls : list string :=
  ["https://a.example/"; "https://b.example/"; "https://c.example/"].

(** One worker about to scrape an unreachable endpoint. *)
Definition failing_url : string := "https://httpbin.org/delay/3".

Definition failing_acts : list (@Action demo_env) :=
  [AMain; AMain; AMain; AMain; AMain; AMain; AFeed 0].

Definition failing_end : list Event * Pool :=
  default ([], init) (run (E := demo_env) 1 [failing_url] failing_acts init).

(* ------------------------------------------------------------------ *)
(** ** Invariants *)

(** Which goroutines exist at each program point of [main]. *)
Definition phase_ok (N : Z) (s : Pool) : Prop :=
  let n := Z.of_nat (length (workers s)) in
  match main s with
  | MGoFeeder =>
      feeder s = None /\ collector s = None /\ workers s = []
      /\ coordinator s = None
  | MGoCollector =>
      is_Some (feeder s) /\ collector s = None /\ workers s = []
      /\ coordinator s = None
  | MLoop i =>
      is_Some (feeder s) /\ is_Some (collector s) /\ coordinator s = None
      /\ (i = n + 1 /\ n <= Z.max 0 N)%Z
  | MGoWorker i =>
      is_Some (feeder s) /\ is_Some (collector s) /\ coordinator s = None
      /\ (i = n + 1 /\ i <= N)%Z
  | MGoCoordinator =>
      is_Some (feeder s) /\ is_Some (collector s) /\ coordinator s = None
      /\ (n = Z.max 0 N)%Z
  | MRecvDone =>
      is_Some (feeder s) /\ is_Some (collector s) /\ is_Some (coordinator s)
      /\ (n = Z.max 0 N)%Z
  | MFinished _ =>
      is_Some (feeder s) /\ collector s = Some CExited /\ is_Some (coordinator s)
      /\ (n = Z.max 0 N)%Z
  end.

Record StInv (N : Z) (s : Pool) : Prop := {
  st_panic : panicked s = false;
  st_phase : phase_ok N s;
  st_wg : wg s = (Z.of_nat (live (workers s))
                  + match main s with MGoWorker _ => 1 | _ => 0 end)%Z;
  st_url : urlClosed s = feeder_exited (feeder s);
  st_past : Forall (fun w => past_loop w -> urlClosed s = true) (workers s);
  st_res : resultClosed s = coordinator_exited (coordinator s);
  st_coord : match coordinator s with
             | Some KClose | Some KExited => Forall (fun w => w = WExited) (workers s)
             | _ => True
             end;
  st_coll : match collector s with
            | Some (CSendDone _) => resultClosed s = true
            | Some CExited => resultClosed s = true /\ is_finished s = true
            | _ => True
            end;
}.

Record TrInv {E : Env} (urls : list string) (tr : list Event) (s : Pool) : Prop := {
  tr_fed : match feeder s with
           | None => fed tr = []
           | Some (FSend rest) => urls = fed tr ++ rest
           | Some FExited => urls = fed tr
           end;
  tr_arr : match collector s with
           | None => arrivals tr = []
           | Some (CRange rs) | Some (CSendDone rs) => rs = arrivals tr
           | Some CExited => True
           end;
  tr_del : match main s with
           | MFinished rs => delivered tr = [rs] /\ rs = arrivals tr
           | _ => delivered tr = []
           end;
  tr_perm : fed tr ≡ₚ (URL <$> arrivals tr) ++ (workers s ≫= inflight);
  tr_worker : forall i,
      fed_to i tr = (fst <$> scrapes_of i tr) ++ to_scrape (workers s !! i)
      /\ snd <$> scrapes_of i tr = results_of i tr ++ to_send (workers s !! i);
  tr_scr : Forall (fun ur => URL ur.2 = ur.1 /\ is_scrape ur.1 ur.2) (scrapes tr);
  tr_src : Forall (fun r => is_scrape (URL r) r) (arrivals tr)
           /\ Forall (fun w => forall r, w = WSend r -> is_scrape (URL r) r) (workers s);
  tr_dones : NoDup (dones tr)
             /\ forall i, i ∈ dones tr <-> workers s !! i = Some WExited;
  tr_curl : url_closes tr = if urlClosed s then [tt] else [];
  tr_cres : result_closes tr = if resultClosed s then [tt] else [];
  tr_idx : Forall (fun e => forall i, ev_worker e = Some i -> i < length (workers s)) tr;
  tr_recv : fed tr ≡ₚ (scrapes tr).*1 ++ (workers s ≫= holding);
  tr_calls : (scrapes tr).*2 ≡ₚ arrivals tr ++ (workers s ≫= held);
}.


(* ------------------------------------------------------------------ *)
(** ** Output and summary of [main] *)

(** Arithmetic of Go's [int] and [int64] (and so of [time.Duration]):
    two's complement on 64 bits. *)
Definition wrap64 (z : Z) : Z := ((z + 2 ^ 63) mod 2 ^ 64 - 2 ^ 63)%Z.

(** A line on standard output, as the call that prints it and its
    arguments; how [fmt] renders each argument is left to [fmt]. *)
Inductive Output :=
| OutCollectorStarted
    (* [fmt.Println("Result collector started")] *)
| OutIndex (resultCount : Z)
    (* [fmt.Printf("[%d] ", resultCount)] *)
| OutError (url : string) (err : error) (d : time_Duration)
    (* [fmt.Printf("ERROR - URL: %s | Error: %v | Time: %v\n", ...)] *)
| OutSuccess (url : string) (status : Z) (len : Z) (d : time_Duration)
    (* [fmt.Printf("SUCCESS - URL:%s | Status: %d | Length: %d bytes | Time: %v\n", ...)] *)
| OutCollected (n : Z).
    (* [fmt.Printf("Result collector finished - collected %d results\n", len(results))] *)

(** [func printResult(result ScrapeResult)] *)
Definition printResult (result : ScrapeResult) : Output :=
  match Error result with
  | Some err => OutError (URL result) err (Duration result)
  | None =>
      OutSuccess (URL result) (StatusCode result) (ContentLength result)
                 (Duration result)
  end.

(** The loop [for result := range resultChannel] of [resultCollector], on
    the values the channel yields before it is closed. *)
Fixpoint resultCollector_loop (stream : list ScrapeResult)
    (results : list ScrapeResult) (resultCount : Z)
  : list Output * list ScrapeResult * Z :=
  match stream with
  | [] => ([], results, resultCount)
  | result :: stream' =>
      let resultCount := wrap64 (resultCount + 1) in
      let results := results ++ [result] in
      let '(out, results', resultCount') :=
        resultCollector_loop stream' results resultCount in
      (OutIndex resultCount :: printResult result :: out, results', resultCount')
  end.

(** [func resultCollector]: what it prints and what it sends on [done]. *)
Definition resultCollector (stream : list ScrapeResult)
  : list Output * list ScrapeResult :=
  let '(out, results, _) := resultCollector_loop stream [] 0%Z in
  (OutCollectorStarted :: out ++ [OutCollected (Z.of_nat (length results))],
   results).

(** The integer figures [main] prints after [results := <-done]; the two
    floating-point ratios (speed-up, efficiency) are left out. *)
Record Summary := mkSummary {
  sum_workers : Z;          (* "Number of workers: %d" *)
  sum_processed : Z;        (* "Total URLs processed: %d", [len(results)] *)
  sum_successful : Z;       (* "Successful requests: %d" *)
  sum_failed : Z;           (* "Failed requests: %d" *)
  sum_processingTime : time_Duration;
                            (* "Total processing time (sum of all requests): %v" *)
}.

(** [for _, result := range results { if result.Error == nil { successCount++ } }] *)
Definition successCount (results : list ScrapeResult) : Z :=
  fold_left (fun n result =>
               match Error result with
               | None => wrap64 (n + 1)
               | Some _ => n
               end) results 0%Z.

(** [for _, result := range results { totalProcessingTime += result.Duration }] *)
Definition totalProcessingTime (results : list ScrapeResult) : time_Duration :=
  fold_left (fun t result => wrap64 (t + Duration result)) results 0%Z.

Definition main_summary (numWorkers : Z) (results : list ScrapeResult) : Summary :=
  {| sum_workers := numWorkers;
     sum_processed := Z.of_nat (length results);
     sum_successful := successCount results;
     sum_failed := wrap64 (Z.of_nat (length results) - successCount results);
     sum_processingTime := totalProcessingTime results |}.

(** Counting, for stating what the loops compute. *)
Definition succeeded (r : ScrapeResult) : bool :=
  match Error r with None => true | Some _ => false end.

Definition count_succeeded (rs : list ScrapeResult) : nat :=
  length (List.filter succeeded rs).

Definition count_failed (rs : list ScrapeResult) : nat :=
  length (List.filter (fun r => negb (succeeded r)) rs).

Definition sum_durations (rs : list ScrapeResult) : Z :=
  foldr (fun r t => (Duration r + t)%Z) 0%Z rs.

Definition is_error_line (o : Output) : bool :=
  match o with OutError _ _ _ => true | _ => false end.

(** A state in the middle of the scheduler's run of [main]'s configuration. *)
Definition midrun_acts : list (@Action demo_env) :=
  take 24 (sched_acts demo_env 0%Z main_numWorkers main_urls).

Definition midrun_end : list Event * Pool :=
  default ([], init) (run (E := demo_env) main_numWorkers main_urls midrun_acts init).

(** What the collector prints for a stream of results: for the [k]-th
    (from 0) the index [k+1] and the result's line. *)
Definition collector_lines (stream : list ScrapeResult) : list Output :=
  concat (imap (fun k r => [OutIndex (Z.of_nat k + 1); printResult r]) stream).

(* ------------------------------------------------------------------ *)
(** ** The chat server (the repository's websocket program)

    One handler on its own: the source shares the [conns] map between
    handlers without a lock, and what concurrent handlers do to it is not
    modelled.  A goroutine started by [broadcast] is recorded with the
    content of the slice [buf[:n]] at the moment it is started; the slice
    shares [buf] with the reads that follow, and what the goroutine's
    later [ws.Write] finds in it is not modelled. *)

(** A [*websocket.Conn], by its address. *)
Definition Conn := positive.

(** [type Server struct { conns map[*websocket.Conn]bool }] *)
Record Server := mkServer { conns : gmap Conn bool }.

(** [func NewServer() *Server] *)
Definition NewServer : Server := {| conns := ∅ |}.

(** What a call of [ws.Read(buf)] brings: bytes (with a nil error), an
    error other than [io.EOF], or [io.EOF]. *)
Inductive ReadResult :=
| ReadData (data : list Byte.byte)
| ReadError (err : error)
| ReadEOF.

(** [n, err := ws.Read(buf)] on incoming bytes: [Read] fills at most
    [len(buf)] bytes of [buf] from its start and returns their number. *)
Definition ws_Read (data buf : list Byte.byte) : nat * list Byte.byte :=
  let chunk := take (length buf) data in
  (length chunk, chunk ++ drop (length chunk) buf).

(** A goroutine started by [broadcast], with the content of [b] at that
    moment. *)
Record Writer := mkWriter { wr_conn : Conn; wr_bytes : list Byte.byte }.

(** [func (s *Server) broadcast(b []byte)]: one goroutine per key of the
    map.  Go ranges over a map in an order of its choosing; here it is
    that of [map_to_list]. *)
Definition broadcast (s : Server) (b : list Byte.byte) : list Writer :=
  (fun kv => mkWriter kv.1 b) <$> map_to_list (conns s).

(** How [readLoop] stands when the reads given to it are used up. *)
Inductive LoopEnd :=
| Returned   (* left the loop on [io.EOF] *)
| Reading.   (* blocked in the next [ws.Read] *)

(** [func (s *Server) readLoop(ws *websocket.Conn)], on the successive
    outcomes of [ws.Read]; [buf] is its 1024-byte buffer, reused by every
    read. *)
Fixpoint readLoop_from (s : Server) (reads : list ReadResult)
    (buf : list Byte.byte) : list Writer * LoopEnd :=
  match reads with
  | [] => ([], Reading)
  | ReadEOF :: _ => ([], Returned)
  | ReadError _ :: reads' => readLoop_from s reads' buf
  | ReadData data :: reads' =>
      let '(n, buf) := ws_Read data buf in
      let msg := take n buf in
      let '(writers, e) := readLoop_from s reads' buf in
      (broadcast s msg ++ writers, e)
  end.

Definition readLoop (s : Server) (reads : list ReadResult)
  : list Writer * LoopEnd :=
  readLoop_from s reads (replicate 1024 Byte.x00).

(** [func (s *Server) handleWS(ws *websocket.Conn)]: the server it
    leaves, the goroutines it started and how its loop stands. *)
Definition handleWS (s : Server) (ws : Conn) (reads : list ReadResult)
  : Server * list Writer * LoopEnd :=
  let s := {| conns := <[ws := true]> (conns s) |} in
  let '(writers, e) := readLoop s reads in
  (s, writers, e).

(** The byte chunks [readLoop] gets before the first [io.EOF], each cut
    to the size of the buffer. *)
Fixpoint chunks_read (reads : list ReadResult) : list (list Byte.byte) :=
  match reads with
  | [] => []
  | ReadEOF :: _ => []
  | ReadError _ :: reads' => chunks_read reads'
  | ReadData data :: reads' => take 1024 data :: chunks_read reads'
  end.

Definition has_eof (reads : list ReadResult) : bool :=
  existsb (fun r => match r with ReadEOF => true | _ => false end) reads.

(** Bytes of a text, for examples. *)
Definition bytes_of (s : string) : list Byte.byte := String.list_byte_of_string s.

(* ------------------------------------------------------------------ *)
(** ** The chat page (App.tsx) *)

(** The state of the [App] component: its three [useState] cells. *)
Record AppState := mkApp {
  isConnected : bool;
  messages : list string;
  socket : option string;   (* the [WebSocket], by its URL; [null] is [None] *)
}.

(** First render. *)
Definition App_init : AppState :=
  {| isConnected := false; messages := []; socket := None |}.

(** What can happen to the mounted component. *)
Inductive AppEvent :=
| OnOpen                               (* [socket.onopen] *)
| OnMessage (data : string)            (* [socket.onmessage] *)
| OnClose                              (* the connection ends; no handler is set *)
| OnSubmit (message : option string).  (* the form's [onSubmit], with
                                          [formData.get("message")] *)

Definition chat_url : string := "ws://localhost:4000/ws".

(** One event: the new state and what is sent on the socket. *)
Definition App_step (st : AppState) (ev : AppEvent) : AppState * list string :=
  match ev with
  | OnOpen =>
      ({| isConnected := true; messages := messages st;
          socket := Some chat_url |}, [])
  | OnMessage data =>
      ({| isConnected := isConnected st; messages := messages st ++ [data];
          socket := socket st |}, [])
  | OnClose => (st, [])
  | OnSubmit message =>
      match message, socket st with
      | Some m, Some _ =>
          if decide (m = EmptyString) then (st, []) else (st, [m])
      | _, _ => (st, [])
      end
  end.

Fixpoint App_run (st : AppState) (evs : list AppEvent) : AppState * list string :=
  match evs with
  | [] => (st, [])
  | ev :: evs' =>
      let '(st1, sent1) := App_step st ev in
      let '(st2, sent2) := App_run st1 evs' in
      (st2, sent1 ++ sent2)
  end.

Definition received (evs : list AppEvent) : list string :=
  omap (fun ev => match ev with OnMessage d => Some d | _ => None end) evs.

Definition opened (evs : list AppEvent) : bool :=
  existsb (fun ev => match ev with OnOpen => true | _ => false end) evs.

(** Data for running the chat server: two clients registered, a third
    connecting and sending two messages with a failed read in between. *)
Definition chat_server : Server :=
  {| conns := <[2%positive := true]> (<[1%positive := true]> ∅) |}.

Definition chat_reads : list ReadResult :=
  [ReadData (bytes_of "hi"); ReadError (errorString "timeout");
   ReadData (bytes_of "yo"); ReadEOF; ReadData (bytes_of "late")].

(** Events of the chat page: a message typed too early, the socket
    opening, a message arriving, the connection ending. *)
Definition page_events : list AppEvent :=
  [OnSubmit (Some "early"); OnOpen; OnMessage "hello"; OnClose].

(** Which of [main]'s URLs fail in [demo_env]. *)
Definition demo_outcome (url : string) : option error :=
  if decide (url = "https://httpbin.org/delay/3")
  then Some (errorString "context deadline exceeded")
  else None.

(* ------------------------------------------------------------------ *)
(** ** Preservation of the state invariant *)

(** Case analysis on a successful [step]: one goal per transition, with
    the guards of the transition as hypotheses. *)
Ltac step_cases H :=
  repeat match type of H with
    | context [match ?x with _ => _ end] =>
        destruct x eqn:?; simpl in H; try discriminate H
    end;
  try (injection H as <- <-).

Ltac step_inv H a :=
  unfold step in H; simpl in H; destruct a; simpl in H;
  unfold main_step, feed_step, closeUrl_step, worker_step, result_step,
    coordinator_step, resultCollector_step in H;
  simpl in H; step_cases H.

(** A list with an element at [i], and the same list updated there. *)
Lemma lookup_split {A} (l : list A) i x :
  l !! i = Some x ->
  exists l1 l2, l = l1 ++ x :: l2 /\ length l1 = i
                /\ forall y, <[i:=y]> l = l1 ++ y :: l2.
Proof.
  intros Hl. exists (take i l), (drop (S i) l).
  pose proof (lookup_lt_Some _ _ _ Hl) as Hlt.
  split; [by rewrite take_drop_middle|].
  split; [rewrite length_take; lia|].
  intros y. by rewrite insert_take_drop.
Qed.

Ltac split_ws :=
  match goal with
  | Hl : ?ws !! ?i = Some ?w |- _ =>
      let l1 := fresh "l1" in let l2 := fresh "l2" in
      let Hlen := fresh "Hlen" in let Hins := fresh "Hins" in
      destruct (lookup_split _ _ _ Hl) as (l1 & l2 & -> & Hlen & Hins);
      rewrite ?Hins in *; clear Hl Hins
  end.

Ltac unbool :=
  repeat match goal with
    | H : (_ <=? _)%Z = true |- _ => apply Z.leb_le in H
    | H : (_ <=? _)%Z = false |- _ => apply Z.leb_gt in H
    | H : (_ <? _)%Z = true |- _ => apply Z.ltb_lt in H
    | H : (_ <? _)%Z = false |- _ => apply Z.ltb_ge in H
    | H : (_ =? _)%Z = true |- _ => apply Z.eqb_eq in H
    | H : (_ =? _)%Z = false |- _ => apply Z.eqb_neq in H
    end.

Ltac norm_ws :=
  unfold live in *;
  rewrite ?Forall_app, ?Forall_cons, ?Forall_nil, ?length_app, ?sum_list_with_app in *;
  simpl in *.

Lemma live_0 ws : live ws = 0 -> Forall (fun w => w = WExited) ws.
Proof.
  unfold live. induction ws as [|w ws IH]; simpl; intros Hs; constructor.
  - destruct w; simpl in Hs; try lia; done.
  - apply IH. lia.
Qed.

Ltac nil_app :=
  repeat match goal with
    | H : _ ++ _ :: _ = [] |- _ =>
        exfalso; revert H; clear; intros H;
        apply app_eq_nil in H; destruct H; discriminate
    | H : is_Some None |- _ => destruct H; discriminate
    end.

Ltac finish :=
  simpl in *; norm_ws; nil_app;
  intuition (subst; simpl in *; nil_app; eauto using Forall_true;
             try lia; try congruence).

(** Every transition preserves the state invariant; in particular no
    transition from a state that satisfies it panics. *)
Lemma StInv_step {E : Env} N urls a s e s' :
  StInv N s -> step N urls a s = Some (e, s') -> StInv N s'.
Proof.
  intros [Hp Hph Hwg Hu Hpast Hr Hk Hc] Hs.
  destruct s as [m f c ws k g uc rc p]. unfold phase_ok in *. simpl in *. subst p.
  step_inv Hs a.
  all: unbool; try split_ws; norm_ws; subst.
  all: try (split; unfold phase_ok, is_finished; simpl; norm_ws).
  all: try solve [finish].
  all: try solve [destruct m; finish].
  all: try solve [destruct k as [[]|]; finish].
  all: try solve [destruct m; destruct k as [[]|]; finish].
  all: try solve [destruct c as [[]|]; finish].
  apply live_0; unfold live; destruct m; finish.
Qed.

(** The observations of a trace extended by one event. *)
Lemma omap_snoc {A B} (f : A -> option B) l x :
  omap f (l ++ [x]) = omap f l ++ match f x with Some y => [y] | None => [] end.
Proof. rewrite omap_app. simpl. by destruct (f x). Qed.

Lemma fed_snoc tr e :
  fed (tr ++ [e]) = fed tr ++ match e with EvFeed _ u => [u] | _ => [] end.
Proof. unfold fed. rewrite omap_snoc. by destruct e. Qed.

Lemma feeds_snoc tr e :
  feeds (tr ++ [e]) = feeds tr ++ match e with EvFeed i u => [(i, u)] | _ => [] end.
Proof. unfold feeds. rewrite omap_snoc. by destruct e. Qed.

Lemma fed_to_snoc i tr e :
  fed_to i (tr ++ [e])
  = fed_to i tr ++ match e with
                   | EvFeed j u => if decide (j = i) then [u] else []
                   | _ => []
                   end.
Proof. unfold fed_to. rewrite omap_snoc. destruct e; try done. by case_decide. Qed.

Lemma scrapes_snoc tr e :
  scrapes (tr ++ [e]) = scrapes tr ++ match e with EvScrape _ u r => [(u, r)] | _ => [] end.
Proof. unfold scrapes. rewrite omap_snoc. by destruct e. Qed.

Lemma scrapes_of_snoc i tr e :
  scrapes_of i (tr ++ [e])
  = scrapes_of i tr ++ match e with
                       | EvScrape j u r => if decide (j = i) then [(u, r)] else []
                       | _ => []
                       end.
Proof. unfold scrapes_of. rewrite omap_snoc. destruct e; try done. by case_decide. Qed.

Lemma arrivals_snoc tr e :
  arrivals (tr ++ [e]) = arrivals tr ++ match e with EvResult _ r => [r] | _ => [] end.
Proof. unfold arrivals. rewrite omap_snoc. by destruct e. Qed.

Lemma results_of_snoc i tr e :
  results_of i (tr ++ [e])
  = results_of i tr ++ match e with
                       | EvResult j r => if decide (j = i) then [r] else []
                       | _ => []
                       end.
Proof. unfold results_of. rewrite omap_snoc. destruct e; try done. by case_decide. Qed.

Lemma dones_snoc tr e :
  dones (tr ++ [e]) = dones tr ++ match e with EvDone i => [i] | _ => [] end.
Proof. unfold dones. rewrite omap_snoc. by destruct e. Qed.

Lemma url_closes_snoc tr e :
  url_closes (tr ++ [e]) = url_closes tr ++ match e with EvCloseUrl => [tt] | _ => [] end.
Proof. unfold url_closes. rewrite omap_snoc. by destruct e. Qed.

Lemma result_closes_snoc tr e :
  result_closes (tr ++ [e])
  = result_closes tr ++ match e with EvCloseResult => [tt] | _ => [] end.
Proof. unfold result_closes. rewrite omap_snoc. by destruct e. Qed.

Lemma delivered_snoc tr e :
  delivered (tr ++ [e]) = delivered tr ++ match e with EvDeliver rs => [rs] | _ => [] end.
Proof. unfold delivered. rewrite omap_snoc. by destruct e. Qed.

Ltac obs_snoc :=
  rewrite ?fed_snoc, ?feeds_snoc, ?fed_to_snoc, ?scrapes_snoc, ?scrapes_of_snoc,
    ?arrivals_snoc, ?results_of_snoc, ?dones_snoc, ?url_closes_snoc,
    ?result_closes_snoc, ?delivered_snoc;
  simpl; rewrite ?app_nil_r.

Lemma scrapeURL_URL {E : Env} url w : URL (scrapeURL url w).1 = url.
Proof. unfold scrapeURL. by destruct (http_Get url w) as [[?|?] ?]. Qed.

(* ------------------------------------------------------------------ *)
(** ** Preservation of the trace invariant *)

Lemma lookup_snoc_WRange (ws : list Worker) i :
  (ws ++ [WRange]) !! i = ws !! i
  \/ ((ws ++ [WRange]) !! i = Some WRange /\ ws !! i = None).
Proof.
  destruct (decide (i = length ws)) as [->|Hne].
  - right. split; [by apply list_lookup_middle|by apply lookup_ge_None_2].
  - left. destruct (decide (i < length ws)) as [Hlt|Hge].
    + by apply lookup_app_l.
    + rewrite !lookup_ge_None_2; [done|lia|rewrite length_app; simpl; lia].
Qed.

Ltac norm_app :=
  rewrite ?fmap_app, ?app_nil_r, <- ?app_assoc in *; simpl in *.

Ltac lookup_at i i0 :=
  destruct (decide (i = i0)) as [<-|?];
  [ rewrite ?list_lookup_insert_eq by (eapply lookup_lt_Some; eassumption)
  | rewrite ?list_lookup_insert_ne by done ].

Ltac use_lookup H :=
  repeat match goal with
    | Hl : ?ws !! ?i = Some _ |- _ =>
        match type of H with context [ws !! i] => rewrite Hl in H end
    end.

Ltac wk_tac Hwk :=
  let i0 := fresh "i0" in
  intros i0; specialize (Hwk i0); obs_snoc;
  try match goal with
    | |- context [<[?i:=_]> _ !! i0] => lookup_at i i0
    | |- context [(?ws ++ [WRange]) !! i0] =>
        destruct (lookup_snoc_WRange ws i0) as [->|[-> Hn]];
        [|rewrite Hn in Hwk]
    end;
  use_lookup Hwk; norm_app; try done;
  try (destruct Hwk as [-> ->]; norm_app; done).

Ltac perm_tac Hperm :=
  obs_snoc; try split_ws; rewrite ?bind_app, ?bind_cons in *; simpl in *;
  rewrite ?scrapeURL_URL, ?fmap_app, ?app_nil_r in *; simpl;
  rewrite ?Hperm; rewrite <- ?Permutation_middle; simpl;
  rewrite ?app_nil_r; done.

Lemma is_scrape_scrapeURL {E : Env} url w :
  is_scrape (URL (scrapeURL url w).1) (scrapeURL url w).1.
Proof. rewrite scrapeURL_URL. by exists w. Qed.

Lemma src_insert {E : Env} (ws : list Worker) i w :
  (forall r, w = WSend r -> is_scrape (URL r) r) ->
  Forall (fun w => forall r, w = WSend r -> is_scrape (URL r) r) ws ->
  Forall (fun w => forall r, w = WSend r -> is_scrape (URL r) r) (<[i:=w]> ws).
Proof. intros Hw Hws. by apply Forall_insert. Qed.

Ltac src_tac Hsrc :=
  obs_snoc; destruct Hsrc as [Hs1 Hs2]; split;
  [ first
      [ done
      | apply Forall_app; split; [done|]; apply Forall_singleton;
        match goal with
        | Hl : _ !! _ = Some (WSend _) |- _ =>
            exact (Forall_lookup_1 _ _ _ _ Hs2 Hl _ eq_refl)
        end ]
  | first
      [ done
      | apply src_insert; [|done];
        first [ intros ? [= <-]; apply is_scrape_scrapeURL
              | intros ? ?; discriminate ]
      | apply Forall_app; split; [done|]; apply Forall_singleton;
        intros ? ?; discriminate ] ].

Lemma dones_keep (ws : list Worker) (ds : list nat) i old new :
  ws !! i = Some old -> old <> WExited -> new <> WExited ->
  (forall j, j ∈ ds <-> ws !! j = Some WExited) ->
  forall j, j ∈ ds <-> <[i:=new]> ws !! j = Some WExited.
Proof.
  intros Hl Ho Hn Hd j. rewrite Hd.
  destruct (decide (i = j)) as [<-|Hne].
  - rewrite list_lookup_insert_eq by (by eapply lookup_lt_Some).
    rewrite Hl. split; intros [= ?]; congruence.
  - by rewrite list_lookup_insert_ne.
Qed.

Lemma dones_done (ws : list Worker) (ds : list nat) i :
  ws !! i = Some WDefer ->
  NoDup ds /\ (forall j, j ∈ ds <-> ws !! j = Some WExited) ->
  NoDup (ds ++ [i])
  /\ forall j, j ∈ ds ++ [i] <-> <[i:=WExited]> ws !! j = Some WExited.
Proof.
  intros Hl [Hnd Hd]. split.
  - apply NoDup_app. split; [done|]. split; [|apply NoDup_singleton].
    intros x Hx Hxi. apply list_elem_of_singleton in Hxi as ->.
    apply Hd in Hx. congruence.
  - intros j. rewrite elem_of_app, list_elem_of_singleton, Hd.
    destruct (decide (i = j)) as [<-|Hne].
    + rewrite list_lookup_insert_eq by (by eapply lookup_lt_Some).
      split; [done|by right].
    + rewrite list_lookup_insert_ne by done. intuition congruence.
Qed.

Lemma dones_spawn (ws : list Worker) (ds : list nat) :
  (forall j, j ∈ ds <-> ws !! j = Some WExited) ->
  forall j, j ∈ ds <-> (ws ++ [WRange]) !! j = Some WExited.
Proof.
  intros Hd j. rewrite Hd.
  destruct (lookup_snoc_WRange ws j) as [->|[-> ->]]; [done|].
  split; intros [= ?].
Qed.

Ltac dn_tac Hdn :=
  obs_snoc;
  first
    [ exact Hdn
    | eapply dones_done; eassumption
    | split; [apply Hdn|];
      first [ eapply dones_keep; [eassumption|done|done|apply Hdn]
            | apply dones_spawn; apply Hdn ] ].

Ltac idx_tac Hidx :=
  apply Forall_app; split;
  [ eapply Forall_impl; [exact Hidx|];
    simpl; intros ? Hi ? Hev; specialize (Hi _ Hev);
    rewrite ?length_insert, ?length_app; simpl; lia
  | apply Forall_singleton; simpl; intros ? Hev; try discriminate Hev;
    injection Hev as <-; rewrite ?length_insert;
    eapply lookup_lt_Some; eassumption ].

(** Every transition preserves the trace invariant, field by field. *)
Lemma TrInv_step {E : Env} N urls tr a s e s' :
  StInv N s -> TrInv urls tr s -> step N urls a s = Some (e, s') ->
  TrInv urls (tr ++ [e]) s'.
Proof.
  intros HS HT Hs. pose proof (StInv_step _ _ _ _ _ _ HS Hs) as [Hnp _ _ _ _ _ _ _].
  pose proof (st_phase _ _ HS) as Hph.
  destruct HT as [Hfed Harr Hdel Hperm Hwk Hscr Hsrc Hdn Hcu Hcr Hidx Hrecv Hcalls].
  destruct s as [m f c ws k g uc rc p]. unfold phase_ok in Hph. simpl in *.
  step_inv Hs a; simpl in Hnp; try discriminate Hnp.
  all: split; simpl;
    [ obs_snoc; first [ done | norm_app; congruence
                      | destruct Hph as (-> & _); rewrite Hfed; done ]
    | obs_snoc; first [ done | norm_app; congruence
                      | destruct Hph as (_ & -> & _); done ]
    | obs_snoc; rewrite ?Hdel;
      first [ done | split; [done|congruence]
            | destruct m; first [ done | destruct Hph as (_ & [=] & _) ] ]
    | perm_tac Hperm
    | wk_tac Hwk
    | obs_snoc; first [ done | apply Forall_app; split; [done|];
                        apply Forall_singleton; simpl; split;
                        [apply scrapeURL_URL|by eexists] ]
    | src_tac Hsrc
    | dn_tac Hdn
    | obs_snoc; rewrite ?Hcu; done
    | obs_snoc; rewrite ?Hcr; done
    | idx_tac Hidx
    | perm_tac Hrecv
    | perm_tac Hcalls ].
Qed.

(* ------------------------------------------------------------------ *)
(** ** Reachable states, termination and progress *)

Lemma StInv_init N : StInv N init.
Proof. split; unfold phase_ok; simpl; done. Qed.

Lemma TrInv_init {E : Env} urls : TrInv urls [] init.
Proof.
  split; simpl; try done.
  split; [constructor|]. intros i. split; [by intros ?%elem_of_nil|done].
Qed.

Lemma Reach_inv {E : Env} N urls tr s :
  Reach N urls tr s -> StInv N s /\ TrInv urls tr s.
Proof.
  induction 1 as [|tr s a e s' _ [IHs IHt] Hstep].
  - split; [apply StInv_init|apply TrInv_init].
  - split; [by eapply StInv_step|by eapply TrInv_step].
Qed.

Lemma run_Reach {E : Env} N urls acts : forall tr0 s tr s',
  Reach N urls tr0 s -> run N urls acts s = Some (tr, s') ->
  Reach N urls (tr0 ++ tr) s'.
Proof.
  induction acts as [|a acts IH]; intros tr0 s tr s' Hr Hrun; simpl in Hrun.
  - injection Hrun as <- <-. by rewrite app_nil_r.
  - destruct (step N urls a s) as [[e s1]|] eqn:Hstep; [|done].
    destruct (run N urls acts s1) as [[tr1 s2]|] eqn:Hrest; [|done].
    injection Hrun as <- <-.
    rewrite cons_middle, (assoc_L (++)).
    eapply IH; [|done]. by eapply Reach_step.
Qed.

Lemma run_init_Reach {E : Env} N urls acts tr s :
  run N urls acts init = Some (tr, s) -> Reach N urls tr s.
Proof. intros Hrun. by apply (run_Reach N urls acts [] init tr s (Reach_init N urls)). Qed.

Lemma run_app {E : Env} N urls acts1 : forall acts2 s tr1 s1 tr2 s2,
  run N urls acts1 s = Some (tr1, s1) -> run N urls acts2 s1 = Some (tr2, s2) ->
  run N urls (acts1 ++ acts2) s = Some (tr1 ++ tr2, s2).
Proof.
  induction acts1 as [|a acts1 IH]; intros acts2 s tr1 s1 tr2 s2 H1 H2; simpl in *.
  - by injection H1 as <- <-.
  - destruct (step N urls a s) as [[e s']|]; [|done].
    destruct (run N urls acts1 s') as [[tr' s'']|] eqn:Hr; [|done].
    injection H1 as <- <-.
    by rewrite (IH acts2 s' tr' s'' tr2 s2 Hr H2).
Qed.

Lemma Reach_run {E : Env} N urls tr s :
  Reach N urls tr s -> exists acts, run N urls acts init = Some (tr, s).
Proof.
  induction 1 as [|tr s a e s' _ [acts IH] Hstep].
  - by exists [].
  - exists (acts ++ [a]). eapply run_app; [done|]. simpl. by rewrite Hstep.
Qed.

(** Every prefix of a trace is the trace of a run. *)
Lemma Reach_prefix {E : Env} N urls tr1 tr2 s :
  Reach N urls (tr1 ++ tr2) s -> exists s1, Reach N urls tr1 s1.
Proof.
  revert s. induction tr2 as [|e tr2 IH] using rev_ind; intros s Hr.
  - rewrite app_nil_r in Hr. by exists s.
  - rewrite (assoc_L (++)) in Hr. inversion Hr as [Hnil|tr s0 a e0 s' Hr0 Hstep Heq].
    + by destruct (tr1 ++ tr2).
    + apply app_inj_tail in Heq as [-> ->]. by eapply IH.
Qed.

(** Every transition lowers the weight: all runs are finite. *)
Lemma step_weight {E : Env} N urls a s e s' :
  step N urls a s = Some (e, s') -> weight N urls s' < weight N urls s.
Proof.
  intros Hs. destruct s as [m f c ws k g uc rc p].
  step_inv Hs a.
  all: unbool; try split_ws; unfold weight; simpl;
    rewrite ?sum_list_with_app; simpl; lia.
Qed.

Lemma run_bounded {E : Env} N urls acts : forall s tr s',
  run N urls acts s = Some (tr, s') ->
  length tr = length acts /\ length acts + weight N urls s' <= weight N urls s.
Proof.
  induction acts as [|a acts IH]; intros s tr s' Hrun; simpl in Hrun.
  - injection Hrun as <- <-. simpl. lia.
  - destruct (step N urls a s) as [[e s1]|] eqn:Hstep; [|done].
    destruct (run N urls acts s1) as [[tr1 s2]|] eqn:Hrest; [|done].
    injection Hrun as <- <-.
    apply step_weight in Hstep. apply IH in Hrest as [? ?]. simpl. lia.
Qed.

Lemma live_lookup ws :
  live ws <> 0 -> exists i w, ws !! i = Some w /\ w <> WExited.
Proof.
  unfold live. induction ws as [|w ws IH]; simpl; [done|]. intros Hl.
  destruct (decide (alive w = 0)) as [Hz|Hnz].
  - destruct IH as (i & w' & Hi & Hw'); [lia|]. by exists (S i), w'.
  - exists 0, w. split; [done|]. by intros ->.
Qed.

Ltac enabled a :=
  exists a; unfold step, main_step, feed_step, closeUrl_step, worker_step,
    result_step, coordinator_step, resultCollector_step; simpl;
  repeat match goal with
    | Hl : ?ws !! ?i = Some _ |- context [?ws !! ?i] => rewrite Hl; simpl
    | Hb : ?b = _ |- context [if ?b then _ else _] => rewrite Hb; simpl
    end;
  eauto.

(** No deadlock: as long as [main] has not received its collection, some
    goroutine can move. *)
Lemma progress {E : Env} N urls (w0 : World) s :
  StInv N s -> is_finished s = false ->
  exists a e s', step N urls a s = Some (e, s').
Proof.
  intros [Hp Hph Hwg Hu Hpast Hr Hk Hc] Hfin.
  destruct s as [m f c ws k g uc rc p]; unfold phase_ok, is_finished in *;
    simpl in *; subst p.
  destruct m; try discriminate.
  1, 2, 4, 5: by enabled AMain.
  { exists AMain. unfold step, main_step; simpl. destruct (i <=? N)%Z; eauto. }
  destruct Hph as ([f' ->] & [c' ->] & [k' ->] & Hlen).
  destruct c' as [rs|rs|]; [|by enabled AMain|by destruct Hc].
  destruct rc eqn:Hrc; [by enabled ACollectorEnd|].
  destruct k'; simpl in Hr; [|by enabled ACloseResult|done].
  destruct (g =? 0)%Z eqn:Hg; [by enabled AWait|]. unbool.
  destruct (live_lookup ws) as (i & w & Hi & Hw); [lia|].
  destruct w; try done.
  - destruct uc eqn:Huc; [by enabled (ARangeEnd i)|].
    destruct f' as [[|u rest]|]; simpl in Hu; [by enabled ACloseUrl| |done].
    by enabled (AFeed i).
  - by enabled (AScrape i w0).
  - by enabled (AResult i).
  - assert ((g - 1 <? 0)%Z = false) as Hg1.
    { apply Z.ltb_ge.
      assert (WDefer ∈ ws) as Hin by (apply list_elem_of_lookup; eauto).
      pose proof (sum_list_with_in _ alive ws Hin).
      unfold live in Hwg. simpl in *. lia. }
    by enabled (ADone i).
Qed.

(** Hence every reachable state has a continuation that finishes. *)
Lemma completion {E : Env} N urls (w0 : World) tr s :
  Reach N urls tr s ->
  exists acts tr' s', run N urls acts s = Some (tr', s') /\ is_finished s' = true.
Proof.
  remember (weight N urls s) as n eqn:Hn. revert tr s Hn.
  induction n as [n IH] using lt_wf_ind. intros tr s -> Hr.
  destruct (is_finished s) eqn:Hfin.
  - by exists [], [], s.
  - destruct (Reach_inv _ _ _ _ Hr) as [HS _].
    destruct (progress N urls w0 s HS Hfin) as (a & e & s1 & Hstep).
    destruct (IH _ (step_weight _ _ _ _ _ _ Hstep) (tr ++ [e]) s1 eq_refl)
      as (acts & tr' & s' & Hrun & Hf); [by eapply Reach_step|].
    exists (a :: acts), (e :: tr'), s'. simpl. by rewrite Hstep, Hrun.
Qed.

(* ------------------------------------------------------------------ *)
(** ** Consequences of the invariants *)

Lemma fed_app tr1 tr2 : fed (tr1 ++ tr2) = fed tr1 ++ fed tr2.
Proof. apply omap_app. Qed.

Lemma arrivals_app tr1 tr2 : arrivals (tr1 ++ tr2) = arrivals tr1 ++ arrivals tr2.
Proof. apply omap_app. Qed.

Lemma dones_app tr1 tr2 : dones (tr1 ++ tr2) = dones tr1 ++ dones tr2.
Proof. apply omap_app. Qed.

Lemma url_closes_app tr1 tr2 :
  url_closes (tr1 ++ tr2) = url_closes tr1 ++ url_closes tr2.
Proof. apply omap_app. Qed.

Lemma result_closes_app tr1 tr2 :
  result_closes (tr1 ++ tr2) = result_closes tr1 ++ result_closes tr2.
Proof. apply omap_app. Qed.

Lemma delivered_app tr1 tr2 :
  delivered (tr1 ++ tr2) = delivered tr1 ++ delivered tr2.
Proof. apply omap_app. Qed.

(** Observations of a trace cut at one of its events. *)
Ltac obs_cut H :=
  rewrite cons_middle, (assoc_L (++)) in H;
  rewrite ?fed_app, ?arrivals_app, ?dones_app, ?url_closes_app,
    ?result_closes_app, ?delivered_app in H;
  rewrite ?fed_snoc, ?arrivals_snoc, ?dones_snoc, ?url_closes_snoc,
    ?result_closes_snoc, ?delivered_snoc in H;
  rewrite ?app_nil_r in H.

Lemma feeds_fed tr : (feeds tr).*2 = fed tr.
Proof.
  unfold feeds, fed. induction tr as [|e tr IH]; [done|].
  destruct e; simpl; first [exact IH | f_equal; exact IH].
Qed.

Lemma all_exited_live ws : Forall (fun w => w = WExited) ws -> live ws = 0.
Proof. unfold live. induction 1 as [|w ws -> _ IH]; simpl; [done|]. by rewrite IH. Qed.

Lemma all_exited_bind {A} (f : Worker -> list A) ws :
  f WExited = [] -> Forall (fun w => w = WExited) ws -> ws ≫= f = [].
Proof.
  intros Hf. induction 1 as [|w ws -> _ IH]; [done|]. by rewrite bind_cons, IH, Hf.
Qed.

(** Once [resultChannel] is closed, every worker is past its [wg.Done()]. *)
Lemma closed_facts N s :
  StInv N s -> resultClosed s = true ->
  Forall (fun w => w = WExited) (workers s)
  /\ length (workers s) = Z.to_nat N /\ wg s = 0%Z.
Proof.
  intros [Hp Hph Hwg Hu Hpast Hr Hk Hc] Hrc.
  destruct s as [m f c ws k g uc rc p]; unfold phase_ok in *; simpl in *; subst.
  destruct k as [[]|]; try done.
  pose proof (all_exited_live _ Hk) as Hl. split; [done|].
  destruct m; try (by destruct Hph as (_ & _ & [=] & _));
    try (by destruct Hph as (_ & _ & _ & [=])); lia.
Qed.

Lemma finished_facts {E : Env} N urls tr s rs :
  Reach N urls tr s -> main s = MFinished rs ->
  rs = arrivals tr /\ delivered tr = [rs] /\ resultClosed s = true.
Proof.
  intros Hr Hm. destruct (Reach_inv _ _ _ _ Hr) as [HS HT].
  pose proof (tr_del _ _ _ HT) as Hd. pose proof (st_phase _ _ HS) as Hph.
  pose proof (st_coll _ _ HS) as Hc. unfold phase_ok in Hph.
  rewrite Hm in Hd, Hph. destruct Hd as [Hd1 Hd2], Hph as (_ & Hcol & _).
  rewrite Hcol in Hc. by destruct Hc.
Qed.

Lemma dones_all {E : Env} urls tr s :
  TrInv urls tr s -> Forall (fun w => w = WExited) (workers s) ->
  dones tr ≡ₚ seq 0 (length (workers s)).
Proof.
  intros HT Hall. destruct (tr_dones _ _ _ HT) as [Hnd Hd].
  apply NoDup_Permutation; [done|apply NoDup_seq|].
  intros i. rewrite Hd, elem_of_seq. split.
  - intros Hl%lookup_lt_Some. lia.
  - intros [_ Hlt]. destruct (lookup_lt_is_Some_2 (workers s) i) as [w Hw]; [lia|].
    by rewrite Hw, (Forall_lookup_1 _ _ _ _ Hall Hw).
Qed.

(** With at least one worker, a closed [resultChannel] means the feeder
    has handed out every URL. *)
Lemma closed_fed {E : Env} N urls tr s :
  (1 <= N)%Z -> Reach N urls tr s -> resultClosed s = true -> fed tr = urls.
Proof.
  intros HN Hr Hrc. destruct (Reach_inv _ _ _ _ Hr) as [HS HT].
  destruct (closed_facts _ _ HS Hrc) as (Hall & Hlen & _).
  pose proof (st_past _ _ HS) as Hpast. pose proof (st_url _ _ HS) as Hu.
  pose proof (tr_fed _ _ _ HT) as Hfed.
  destruct (workers s) as [|w ws]; [simpl in Hlen; lia|].
  apply Forall_cons in Hall as [-> _]. apply Forall_cons in Hpast as [Hp _].
  rewrite Hp in Hu by done. by destruct (feeder s) as [[]|].
Qed.

Lemma Reach_split {E : Env} N urls pre e post s :
  Reach N urls (pre ++ e :: post) s -> exists s1, Reach N urls (pre ++ [e]) s1.
Proof. rewrite cons_middle, (assoc_L (++)). apply Reach_prefix. Qed.

Lemma workers_bound N s :
  StInv N s -> (Z.of_nat (length (workers s)) <= Z.max 0 N)%Z.
Proof.
  intros HS. pose proof (st_phase _ _ HS) as Hph. unfold phase_ok in Hph.
  destruct (main s); destruct Hph as (? & ? & Hws & ?);
    try (rewrite Hws; simpl); lia.
Qed.

Lemma fed_prefix {E : Env} urls tr s :
  TrInv urls tr s -> exists rest, urls = fed tr ++ rest.
Proof.
  intros HT. pose proof (tr_fed _ _ _ HT) as Hfed.
  destruct (feeder s) as [[rest|]|].
  - by exists rest.
  - exists []. by rewrite app_nil_r.
  - exists urls. by rewrite Hfed.
Qed.

(** Events of a pool without workers involve no worker. *)
Lemma no_worker_events tr :
  Forall (fun e => forall i, ev_worker e = Some i -> i < 0) tr ->
  fed tr = [] /\ arrivals tr = [].
Proof.
  unfold fed, arrivals. induction 1 as [|e tr He _ [IH1 IH2]]; [done|].
  destruct e; simpl; try done; specialize (He _ eq_refl); lia.
Qed.

(** In a pool of one worker, every event of a worker is that worker's. *)
Lemma single_worker_events tr :
  Forall (fun e => forall i, ev_worker e = Some i -> i < 1) tr ->
  fed tr = fed_to 0 tr /\ scrapes tr = scrapes_of 0 tr
  /\ arrivals tr = results_of 0 tr.
Proof.
  unfold fed, fed_to, scrapes, scrapes_of, arrivals, results_of.
  induction 1 as [|e tr He _ (IH1 & IH2 & IH3)]; [done|].
  destruct e as [| |i ?| |i ? ?|i ?| | |]; simpl; try done;
    specialize (He _ eq_refl); assert (i = 0) as -> by lia; simpl;
    repeat split;
    first [ exact IH1 | exact IH2 | exact IH3
          | f_equal; first [ exact IH1 | exact IH2 | exact IH3 ] ].
Qed.

(** A worker blocked in its send always finds the collector receiving. *)
Lemma send_enabled N s i r :
  StInv N s -> workers s !! i = Some (WSend r) ->
  exists rs, collector s = Some (CRange rs) /\ resultClosed s = false.
Proof.
  intros HS Hw. destruct (resultClosed s) eqn:Hrc.
  - destruct (closed_facts _ _ HS Hrc) as (Hall & _).
    by pose proof (Forall_lookup_1 _ _ _ _ Hall Hw).
  - pose proof (st_coll _ _ HS) as Hc. pose proof (st_phase _ _ HS) as Hph.
    unfold phase_ok in Hph. rewrite Hrc in Hc.
    destruct (collector s) as [[rs|rs|]|]; [by exists rs|done|by destruct Hc|].
    destruct (main s); destruct Hph as (? & Hcol & Hws & ?);
      try (by destruct Hcol); try done.
    all: by rewrite Hws in Hw.
Qed.

(** With at least one worker, the collection [main] receives has one
    result per URL, and every URL went to one existing worker. *)
Lemma collection_complete {E : Env} N urls tr s rs :
  (1 <= N)%Z -> Reach N urls tr s -> main s = MFinished rs ->
  URL <$> rs ≡ₚ urls /\ length rs = length urls
  /\ (feeds tr).*2 = urls
  /\ Forall (fun iu => (Z.of_nat iu.1 < N)%Z) (feeds tr)
  /\ (scrapes tr).*1 ≡ₚ urls /\ (scrapes tr).*2 ≡ₚ rs.
Proof.
  intros HN Hrun Hm.
  destruct (finished_facts _ _ _ _ _ Hrun Hm) as (-> & _ & Hrc).
  destruct (Reach_inv _ _ _ _ Hrun) as [HS HT].
  destruct (closed_facts _ _ HS Hrc) as (Hall & Hlen & _).
  pose proof (closed_fed _ _ _ _ HN Hrun Hrc) as Hfed.
  pose proof (tr_perm _ _ _ HT) as Hperm.
  pose proof (tr_recv _ _ _ HT) as Hrecv.
  pose proof (tr_calls _ _ _ HT) as Hcalls.
  rewrite (all_exited_bind inflight _ eq_refl Hall), app_nil_r, Hfed in Hperm.
  rewrite (all_exited_bind holding _ eq_refl Hall), app_nil_r, Hfed in Hrecv.
  rewrite (all_exited_bind held _ eq_refl Hall), app_nil_r in Hcalls.
  split; [done|]. split; [by rewrite Hperm, length_fmap|].
  split; [by rewrite feeds_fed|].
  split; [|done].
  pose proof (tr_idx _ _ _ HT) as Hidx. rewrite Hlen in Hidx.
  clear -Hidx. unfold feeds. induction tr as [|e tr IH]; [constructor|].
  apply Forall_cons in Hidx as [He Htr]. destruct e; simpl; auto.
  constructor; [|by auto]. simpl. specialize (He _ eq_refl). lia.
Qed.

(** Every run can be continued until [main] has received its collection. *)
Lemma can_finish {E : Env} N urls (w0 : World) tr s :
  Reach N urls tr s ->
  exists acts' tr' s' rs,
    run N urls acts' s = Some (tr', s') /\ main s' = MFinished rs.
Proof.
  intros Hrun.
  destruct (completion N urls w0 tr s Hrun) as (acts' & tr' & s' & Hrun' & Hf).
  unfold is_finished in Hf. destruct (main s') as [| | | | | |rs] eqn:Hm; try done.
  by exists acts', tr', s', rs.
Qed.

(** The collector's slice is the results received so far. *)
Lemma collection_arrivals {E : Env} N urls tr s :
  Reach N urls tr s -> collection s = arrivals tr.
Proof.
  intros Hr. destruct (Reach_inv _ _ _ _ Hr) as [HS HT].
  pose proof (tr_arr _ _ _ HT) as Ha. pose proof (tr_del _ _ _ HT) as Hd.
  pose proof (st_coll _ _ HS) as Hc. unfold collection, is_finished in *.
  destruct (collector s) as [[rs|rs|]|]; try done.
  - destruct Hc as [_ Hf]. destruct (main s); try done. by destruct Hd.
  - destruct (main s); try done. by destruct Hd.
Qed.

(** A step that takes a result off a worker's hands is the rendezvous on
    [resultChannel], and appends that result to the collector's slice. *)
Lemma send_appends {E : Env} N urls a e s s' i r :
  step N urls a s = Some (e, s') ->
  workers s !! i = Some (WSend r) -> workers s' !! i <> Some (WSend r) ->
  e = EvResult i r /\ collection s' = collection s ++ [r]
  /\ workers s' = <[i := WRange]> (workers s).
Proof.
  intros Hstep Hw Hw'. unfold collection.
  step_inv Hstep a; simpl in *; try done.
  all: try (exfalso; apply Hw';
            match goal with
            | |- <[?j := _]> _ !! _ = _ =>
                destruct (decide (j = i)) as [->|Hne];
                [congruence | by rewrite list_lookup_insert_ne]
            | |- (_ ++ _) !! _ = _ => by apply lookup_app_l_Some
            end).
  destruct (decide (i0 = i)) as [->|Hne].
  - by replace r with result by congruence.
  - exfalso. apply Hw'. by rewrite list_lookup_insert_ne.
Qed.

(** No other step changes the collector's slice. *)
Lemma collection_frame {E : Env} N urls a e s s' :
  StInv N s -> step N urls a s = Some (e, s') ->
  (forall i r, workers s !! i = Some (WSend r) -> workers s' !! i = Some (WSend r)) ->
  collection s' = collection s /\ forall i r, e <> EvResult i r.
Proof.
  intros HS Hstep Hw. pose proof (st_phase _ _ HS) as Hph.
  unfold collection, phase_ok in *.
  step_inv Hstep a; simpl in *; try done;
    try (by destruct (collector s) as [[]|]).
  - destruct Hph as (_ & -> & _). done.
  - exfalso.
    match goal with
    | H : workers s !! ?j = Some (WSend ?r) |- _ =>
        pose proof (Hw _ _ H) as Hx; pose proof (lookup_lt_Some _ _ _ H) as Hlt;
        rewrite list_lookup_insert_eq in Hx by done; discriminate Hx
    end.
Qed.

(** What [main] receives is all that the workers built. *)
Lemma finished_collection {E : Env} N urls tr s rs :
  Reach N urls tr s -> main s = MFinished rs ->
  collection s = rs /\ (scrapes tr).*2 ≡ₚ rs.
Proof.
  intros Hr Hm. destruct (Reach_inv _ _ _ _ Hr) as [HS HT].
  destruct (finished_facts _ _ _ _ _ Hr Hm) as (Ha & _ & Hrc).
  destruct (closed_facts _ _ HS Hrc) as (Hall & _ & _).
  pose proof (tr_calls _ _ _ HT) as Hc.
  rewrite (all_exited_bind held _ eq_refl Hall), app_nil_r in Hc.
  split; [|by rewrite Ha]. by rewrite (collection_arrivals _ _ _ _ Hr).
Qed.

Section Claims.
Context {E : Env}.

(** C1: with at least one worker, every collection handed to [main] holds
    exactly one result per URL of the list (as multisets: nothing twice,
    nothing missing); the hand-offs on [urlChannel] are the list itself,
    each URL going to one existing worker in one hand-off; the calls of
    [scrapeURL] are on those URLs, one each, and their results are the
    collection; and no run goes on for ever, while every run can be
    continued until [main] has its collection. *)
Theorem C1_one_result_per_task (N : Z) (urls : list string) (w0 : World) :
  (1 <= N)%Z ->
  (forall acts tr s rs,
      run N urls acts init = Some (tr, s) -> main s = MFinished rs ->
      URL <$> rs ≡ₚ urls /\ length rs = length urls
      /\ (feeds tr).*2 = urls
      /\ Forall (fun iu => (Z.of_nat iu.1 < N)%Z) (feeds tr)
      /\ (scrapes tr).*1 ≡ₚ urls /\ (scrapes tr).*2 ≡ₚ rs)
  /\ (forall acts tr s,
         run N urls acts init = Some (tr, s) ->
         length acts <= weight N urls init
         /\ exists acts' tr' s' rs,
              run N urls acts' s = Some (tr', s') /\ main s' = MFinished rs).
Proof.
  intros HN. split.
  - intros acts tr s rs Hrun%run_init_Reach Hm. by eapply collection_complete.
  - intros acts tr s Hrun. split.
    + destruct (run_bounded _ _ _ _ _ _ Hrun) as [_ Hb]. lia.
    + apply run_init_Reach in Hrun. by eapply can_finish.
Qed.

(** C2: [resultChannel] is closed only once every worker is past its
    [wg.Done()]: in a state with the channel closed all [N] workers have
    exited and the counter is zero; in a trace, the signals before the
    close are those of workers [0 .. N-1], one each, none comes after it,
    and the close itself happens once.  (True of every [N], hence of
    [N >= 1].) *)
Theorem C2_close_after_all_workers (N : Z) (urls : list string)
    (acts : list Action) (tr : list Event) (s : Pool) :
  run N urls acts init = Some (tr, s) ->
  (resultClosed s = true ->
     Forall (fun w => w = WExited) (workers s)
     /\ length (workers s) = Z.to_nat N /\ wg s = 0%Z)
  /\ NoDup (dones tr)
  /\ forall pre post, tr = pre ++ EvCloseResult :: post ->
       dones pre ≡ₚ seq 0 (Z.to_nat N) /\ dones post = []
       /\ result_closes pre = [] /\ result_closes post = [].
Proof.
  intros Hrun%run_init_Reach. destruct (Reach_inv _ _ _ _ Hrun) as [HS HT].
  split; [by apply closed_facts|]. split; [apply (tr_dones _ _ _ HT)|].
  intros pre post ->.
  destruct (Reach_split _ _ _ _ _ _ Hrun) as [s1 Hr1].
  destruct (Reach_inv _ _ _ _ Hr1) as [HS1 HT1].
  pose proof (tr_cres _ _ _ HT1) as Hc1. rewrite result_closes_snoc in Hc1.
  pose proof (tr_cres _ _ _ HT) as Hc. obs_cut Hc.
  destruct (resultClosed s1) eqn:Hrc1; [|by destruct (result_closes pre)].
  destruct (result_closes pre) as [|x l]; [|by destruct l]. clear Hc1.
  destruct (resultClosed s) eqn:Hrc; [|done]. simpl in Hc.
  destruct (closed_facts _ _ HS1 Hrc1) as (Hall1 & Hlen1 & _).
  destruct (closed_facts _ _ HS Hrc) as (Hall & Hlen & _).
  pose proof (dones_all _ _ _ HT1 Hall1) as Hd1.
  rewrite dones_snoc, app_nil_r, Hlen1 in Hd1.
  destruct (tr_dones _ _ _ HT) as [Hnd Hd]. obs_cut Hnd.
  split; [done|]. split; [|split; [done|by injection Hc]].
  destruct (dones post) as [|x l] eqn:Hpost; [done|]. exfalso.
  apply NoDup_app in Hnd as (_ & Hdisj & _). apply (Hdisj x); [|by left].
  rewrite Hd1. apply elem_of_seq.
  assert (workers s !! x = Some WExited) as Hx.
  { apply Hd. rewrite cons_middle, !dones_app, Hpost, !elem_of_app.
    right; right. by left. }
  apply lookup_lt_Some in Hx. lia.
Qed.

(** C3: the collector's slice is, at every moment, the results received
    so far in arrival order; [main] receives a collection at most once;
    when it does, [resultChannel] has been closed (all [N] workers done)
    before, the collection is every result received, in arrival order,
    and nothing is received or delivered afterwards; and every run can
    be continued until that single delivery has happened, of a
    collection that holds the result of every [scrapeURL] call of the
    run.  Measured against the workers: every result a worker has built
    is in the slice or still in that worker's hands; whenever a worker
    gets past its [resultChannel <- result], that step has appended
    exactly that result at the end of the slice; and no other step
    changes the slice. *)
Theorem C3_collector_delivers_once (N : Z) (urls : list string) (w0 : World)
    (acts : list Action) (tr : list Event) (s : Pool) :
  run N urls acts init = Some (tr, s) ->
  match collector s with
  | Some (CRange rs) | Some (CSendDone rs) => rs = arrivals tr
  | _ => True
  end
  /\ delivered tr = match main s with MFinished rs => [rs] | _ => [] end
  /\ (forall pre rs post, tr = pre ++ EvDeliver rs :: post ->
        rs = arrivals pre /\ arrivals post = []
        /\ result_closes pre = [tt] /\ dones pre ≡ₚ seq 0 (Z.to_nat N)
        /\ delivered pre = [] /\ delivered post = []
        /\ main s = MFinished rs)
  /\ (exists acts' tr' s' rs,
       run N urls acts' s = Some (tr', s') /\ main s' = MFinished rs
       /\ delivered (tr ++ tr') = [rs] /\ rs = arrivals (tr ++ tr')
       /\ (scrapes (tr ++ tr')).*2 ≡ₚ rs)
  /\ (scrapes tr).*2 ≡ₚ collection s ++ (workers s ≫= held)
  /\ (forall rs, main s = MFinished rs ->
        collection s = rs /\ (scrapes tr).*2 ≡ₚ rs)
  /\ (forall a e s' i r,
        step N urls a s = Some (e, s') ->
        workers s !! i = Some (WSend r) -> workers s' !! i <> Some (WSend r) ->
        e = EvResult i r /\ collection s' = collection s ++ [r]
        /\ workers s' = <[i := WRange]> (workers s))
  /\ (forall a e s',
        step N urls a s = Some (e, s') ->
        (forall i r, workers s !! i = Some (WSend r) ->
                     workers s' !! i = Some (WSend r)) ->
        collection s' = collection s /\ forall i r, e <> EvResult i r).
Proof.
  intros Hrun%run_init_Reach. destruct (Reach_inv _ _ _ _ Hrun) as [HS HT].
  split; [|split; [|split; [|split; [|split; [|split; [|split]]]]]].
  - pose proof (tr_arr _ _ _ HT) as Ha. by destruct (collector s) as [[]|].
  - pose proof (tr_del _ _ _ HT) as Hd. destruct (main s); try done. by destruct Hd.
  - intros pre rs post ->.
    destruct (Reach_split _ _ _ _ _ _ Hrun) as [s1 Hr1].
    destruct (Reach_inv _ _ _ _ Hr1) as [HS1 HT1].
    pose proof (tr_del _ _ _ HT1) as Hd1. rewrite delivered_snoc in Hd1.
    pose proof (tr_del _ _ _ HT) as Hd. obs_cut Hd.
    destruct (main s1) as [| | | | | |rs1] eqn:Hm1;
      try (by destruct (delivered pre)).
    destruct Hd1 as [Hd1 Ha1]. destruct (delivered pre) as [|x l]; [|by destruct l].
    injection Hd1 as <-. rewrite arrivals_snoc, app_nil_r in Ha1.
    destruct (main s) as [| | | | | |rs2] eqn:Hm; try done.
    destruct Hd as [Hd Ha].
    simpl in Hd. injection Hd as <- Hpost.
    destruct (finished_facts _ _ _ _ _ Hr1 Hm1) as (_ & _ & Hrc1).
    pose proof (tr_cres _ _ _ HT1) as Hc1.
    rewrite result_closes_snoc, app_nil_r, Hrc1 in Hc1.
    destruct (closed_facts _ _ HS1 Hrc1) as (Hall1 & Hlen1 & _).
    pose proof (dones_all _ _ _ HT1 Hall1) as Hdn.
    rewrite dones_snoc, app_nil_r, Hlen1 in Hdn.
    repeat split; try done.
    symmetry. apply (app_inv_head (arrivals pre)). rewrite app_nil_r. congruence.
  - destruct (can_finish N urls w0 tr s Hrun) as (acts' & tr' & s' & rs & Hrun' & Hm).
    exists acts', tr', s', rs. split; [done|]. split; [done|].
    pose proof (run_Reach _ _ _ _ _ _ _ Hrun Hrun') as Hr'.
    destruct (finished_facts _ _ _ _ _ Hr' Hm) as (? & ? & _).
    by destruct (finished_collection _ _ _ _ _ Hr' Hm).
  - rewrite (collection_arrivals _ _ _ _ Hrun). apply (tr_calls _ _ _ HT).
  - intros rs Hm. by apply (finished_collection N urls tr s).
  - intros a e s' i r. apply send_appends.
  - intros a e s'. by apply collection_frame.
Qed.

(** C5: in every state of a run, a worker whose [scrapeURL] call fails
    stores the error in the result it then holds (nothing panics, no other
    worker is touched); a worker holding a result, failed or not, can hand
    it to the collector, which appends it, and the worker is back at the
    head of its loop; a worker leaves its loop only from the loop head
    when [urlChannel] is closed; and the run can always be continued until
    [main] has its collection. *)
Theorem C5_failure_is_data (N : Z) (urls : list string) (w0 : World)
    (acts : list Action) (tr : list Event) (s : Pool) (i : nat) :
  run N urls acts init = Some (tr, s) ->
  (forall url w err,
      workers s !! i = Some (WScrape url) -> (http_Get url w).1 = inr err ->
      exists r s1,
        step N urls (AScrape i w) s = Some (EvScrape i url r, s1)
        /\ URL r = url /\ Error r = Some err
        /\ workers s1 !! i = Some (WSend r)
        /\ (forall j, j <> i -> workers s1 !! j = workers s !! j)
        /\ panicked s1 = false)
  /\ (forall r,
         workers s !! i = Some (WSend r) ->
         exists rs s1,
           collector s = Some (CRange rs)
           /\ step N urls (AResult i) s = Some (EvResult i r, s1)
           /\ collector s1 = Some (CRange (rs ++ [r]))
           /\ workers s1 !! i = Some WRange
           /\ panicked s1 = false)
  /\ (forall a e s1,
         step N urls a s = Some (e, s1) ->
         workers s1 !! i = Some WDefer -> workers s !! i <> Some WDefer ->
         a = ARangeEnd i /\ workers s !! i = Some WRange /\ urlClosed s = true)
  /\ (exists acts' tr' s' rs,
         run N urls acts' s = Some (tr', s') /\ main s' = MFinished rs).
Proof.
  intros Hrun%run_init_Reach. destruct (Reach_inv _ _ _ _ Hrun) as [HS HT].
  pose proof (st_panic _ _ HS) as Hp.
  split; [|split; [|split; [|by eapply can_finish]]].
  - intros url w err Hw Hget.
    exists (scrapeURL url w).1, (set_workers (<[i:=WSend (scrapeURL url w).1]> (workers s)) s).
    unfold step, worker_step. rewrite Hp, Hw. simpl.
    split; [done|]. split; [apply scrapeURL_URL|].
    split; [unfold scrapeURL; by destruct (http_Get url w) as [[?|?] ?]; simplify_eq/=|].
    split; [apply list_lookup_insert_eq; by eapply lookup_lt_Some|].
    split; [|done]. intros j Hj. by apply list_lookup_insert_ne.
  - intros r Hw. destruct (send_enabled _ _ _ _ HS Hw) as (rs & Hc & Hrc).
    exists rs, (set_collector (Some (CRange (rs ++ [r])))
                 (set_workers (<[i:=WRange]> (workers s)) s)).
    unfold step, result_step. rewrite Hp, Hw, Hrc, Hc. simpl.
    split; [done|]. split; [done|]. split; [done|].
    split; [apply list_lookup_insert_eq; by eapply lookup_lt_Some|done].
  - intros a e s1 Hstep Hw1 Hw.
    unfold step in Hstep. rewrite Hp in Hstep.
    destruct a; simpl in Hstep;
      unfold main_step, feed_step, closeUrl_step, worker_step, result_step,
        coordinator_step, resultCollector_step in Hstep;
      step_cases Hstep; simpl in Hw1; try done.
    all: try match goal with
           | Hl : _ !! ?j = Some _ |- _ =>
               destruct (decide (j = i)) as [->|Hne];
               [ rewrite list_lookup_insert_eq in Hw1
                   by (by eapply lookup_lt_Some); try done
               | by rewrite list_lookup_insert_ne in Hw1 ]
           end.
    destruct (lookup_snoc_WRange (workers s) i) as [Hl|[Hl _]];
      rewrite Hl in Hw1; done.
Qed.

(** C6: with at least one worker, if every request succeeds then every
    result in the collection handed to [main] has a nil Error; if every
    request fails then every result has a non-nil Error, the collection
    still has one result per URL, and every run is still finite and can
    be continued until [main] has it. *)
Theorem C6_uniform_outcomes (N : Z) (urls : list string) (w0 : World) :
  (1 <= N)%Z ->
  ((forall url w, exists resp, (http_Get url w).1 = inl resp) ->
   forall acts tr s rs,
     run N urls acts init = Some (tr, s) -> main s = MFinished rs ->
     Forall (fun r => Error r = None) rs /\ length rs = length urls)
  /\ ((forall url w, exists err, (http_Get url w).1 = inr err) ->
      (forall acts tr s rs,
          run N urls acts init = Some (tr, s) -> main s = MFinished rs ->
          Forall (fun r => Error r <> None) rs /\ length rs = length urls)
      /\ (forall acts tr s,
             run N urls acts init = Some (tr, s) ->
             length acts <= weight N urls init
             /\ exists acts' tr' s' rs,
                  run N urls acts' s = Some (tr', s') /\ main s' = MFinished rs
                  /\ length rs = length urls)).
Proof.
  intros HN.
  assert (forall P : ScrapeResult -> Prop,
            (forall url w, P (scrapeURL url w).1) ->
            forall acts tr s rs,
              run N urls acts init = Some (tr, s) -> main s = MFinished rs ->
              Forall P rs /\ length rs = length urls) as Hall.
  { intros P HP acts tr s rs Hrun%run_init_Reach Hm.
    destruct (collection_complete _ _ _ _ _ HN Hrun Hm) as (_ & Hlen & _).
    split; [|done]. destruct (Reach_inv _ _ _ _ Hrun) as [_ HT].
    destruct (finished_facts _ _ _ _ _ Hrun Hm) as (-> & _).
    destruct (tr_src _ _ _ HT) as [Hsrc _].
    eapply Forall_impl; [exact Hsrc|]. by intros r [w ->]. }
  split.
  - intros Hup. apply Hall. intros url w. destruct (Hup url w) as [resp Hget].
    unfold scrapeURL. by destruct (http_Get url w) as [[?|?] ?].
  - intros Hdown.
    assert (forall url w, Error (scrapeURL url w).1 <> None) as Herr.
    { intros url w. destruct (Hdown url w) as [err Hget].
      unfold scrapeURL. by destruct (http_Get url w) as [[?|?] ?]. }
    split; [by apply Hall|].
    intros acts tr s Hrun.
    split; [destruct (run_bounded _ _ _ _ _ _ Hrun) as [_ Hb]; lia|].
    apply run_init_Reach in Hrun.
    destruct (can_finish N urls w0 _ _ Hrun) as (acts' & tr' & s' & rs & Hrun' & Hm).
    exists acts', tr', s', rs. split; [done|]. split; [done|].
    pose proof (run_Reach _ _ _ _ _ _ _ Hrun Hrun') as Hr'.
    by destruct (collection_complete _ _ _ _ _ HN Hr' Hm) as (_ & Hlen & _).
Qed.

(** C7: the feeder hands out the URLs in list order: at every moment the
    URLs handed out are a prefix of the list; [urlChannel] is closed at
    most once, only when the whole list has been handed out, and nothing
    is handed out afterwards; with at least one worker a finished run has
    handed out the whole list and closed the channel.  A step of the
    feeder never panics and leaves [main], the collector, the coordinator,
    the WaitGroup and [resultChannel] as they were. *)
Theorem C7_feeder_in_order (N : Z) (urls : list string)
    (acts : list Action) (tr : list Event) (s : Pool) :
  run N urls acts init = Some (tr, s) ->
  (exists rest, urls = fed tr ++ rest)
  /\ url_closes tr = (if urlClosed s then [tt] else [])
  /\ (forall pre post, tr = pre ++ EvCloseUrl :: post ->
        fed pre = urls /\ fed post = []
        /\ url_closes pre = [] /\ url_closes post = [])
  /\ ((1 <= N)%Z -> is_finished s = true ->
        fed tr = urls /\ url_closes tr = [tt])
  /\ (forall a e s1,
        step N urls a s = Some (e, s1) ->
        a = ACloseUrl \/ (exists i, a = AFeed i) ->
        panicked s1 = false /\ main s1 = main s /\ collector s1 = collector s
        /\ coordinator s1 = coordinator s /\ wg s1 = wg s
        /\ resultClosed s1 = resultClosed s
        /\ length (workers s1) = length (workers s)).
Proof.
  intros Hrun%run_init_Reach. destruct (Reach_inv _ _ _ _ Hrun) as [HS HT].
  split; [by eapply fed_prefix|]. split; [apply (tr_curl _ _ _ HT)|].
  split; [|split].
  - intros pre post ->.
    destruct (Reach_split _ _ _ _ _ _ Hrun) as [s1 Hr1].
    destruct (Reach_inv _ _ _ _ Hr1) as [HS1 HT1].
    pose proof (tr_curl _ _ _ HT1) as Hc1. rewrite url_closes_snoc in Hc1.
    pose proof (tr_curl _ _ _ HT) as Hc. obs_cut Hc.
    destruct (urlClosed s1) eqn:Huc1; [|by destruct (url_closes pre)].
    destruct (url_closes pre) as [|x l]; [|by destruct l]. clear Hc1.
    destruct (urlClosed s) eqn:Huc; [|done]. simpl in Hc.
    pose proof (st_url _ _ HS1) as Hu1. pose proof (tr_fed _ _ _ HT1) as Hf1.
    pose proof (st_url _ _ HS) as Hu. pose proof (tr_fed _ _ _ HT) as Hf.
    rewrite Huc1 in Hu1. rewrite Huc in Hu.
    destruct (feeder s1) as [[]|]; try done.
    destruct (feeder s) as [[]|]; try done.
    rewrite fed_snoc, app_nil_r in Hf1. obs_cut Hf.
    split; [done|]. split; [|split; [done|by injection Hc]].
    symmetry. apply (app_inv_head (fed pre)). rewrite app_nil_r. congruence.
  - intros HN Hf. unfold is_finished in Hf.
    destruct (main s) as [| | | | | |rs] eqn:Hm; try done.
    destruct (finished_facts _ _ _ _ _ Hrun Hm) as (_ & _ & Hrc).
    pose proof (closed_fed _ _ _ _ HN Hrun Hrc) as Hfed. split; [done|].
    destruct (closed_facts _ _ HS Hrc) as (Hall & Hlen & _).
    pose proof (st_past _ _ HS) as Hpast. pose proof (tr_curl _ _ _ HT) as Hcu.
    destruct (workers s) as [|w ws]; [simpl in Hlen; lia|].
    apply Forall_cons in Hall as [-> _]. apply Forall_cons in Hpast as [Hp _].
    by rewrite Hp in Hcu.
  - intros a e s1 Hstep Ha.
    pose proof (StInv_step _ _ _ _ _ _ HS Hstep) as HS1.
    split; [apply (st_panic _ _ HS1)|].
    pose proof (st_panic _ _ HS1) as Hp1. clear HS1.
    unfold step in Hstep. destruct (panicked s); [done|].
    destruct Ha as [->|[i ->]]; simpl in Hstep;
      unfold feed_step, closeUrl_step in Hstep; step_cases Hstep;
      simpl in Hp1; try done; simpl; by rewrite ?length_insert.
Qed.

(** C8: for every worker, the results it has handed to the collector are,
    in order, the results of the [scrapeURL] calls it made (all but the
    one it may still hold), and those calls were made on the URLs it
    received, in the order it received them.  With one worker, the URLs
    are processed in list order: the URLs scraped so far are a prefix of
    the list, and in a finished run they, and the URLs of the collection,
    are the whole list in order. *)
Theorem C8_worker_order (N : Z) (urls : list string)
    (acts : list Action) (tr : list Event) (s : Pool) :
  run N urls acts init = Some (tr, s) ->
  (forall i,
      (scrapes_of i tr).*2 = results_of i tr ++ to_send (workers s !! i)
      /\ fed_to i tr = (scrapes_of i tr).*1 ++ to_scrape (workers s !! i))
  /\ Forall (fun ur => URL ur.2 = ur.1) (scrapes tr)
  /\ (N = 1%Z ->
        (exists rest, urls = (scrapes tr).*1 ++ rest)
        /\ (scrapes tr).*2 = arrivals tr ++ to_send (workers s !! 0)
        /\ forall rs, main s = MFinished rs ->
             (scrapes tr).*1 = urls /\ URL <$> rs = urls).
Proof.
  intros Hrun%run_init_Reach. destruct (Reach_inv _ _ _ _ Hrun) as [HS HT].
  split; [intros i; by destruct (tr_worker _ _ _ HT i)|].
  assert (Forall (fun ur => URL ur.2 = ur.1) (scrapes tr)) as Hurl.
  { eapply Forall_impl; [apply (tr_scr _ _ _ HT)|]. by intros ? [? _]. }
  split; [done|]. intros ->.
  pose proof (workers_bound _ _ HS) as Hb.
  assert (Forall (fun e => forall i, ev_worker e = Some i -> i < 1) tr) as Hidx.
  { eapply Forall_impl; [apply (tr_idx _ _ _ HT)|].
    simpl. intros e He i Hi. specialize (He i Hi). lia. }
  destruct (single_worker_events _ Hidx) as (Hf & Hsc & Ha).
  destruct (tr_worker _ _ _ HT 0) as [Hw1 Hw2].
  rewrite <- Hf, <- Hsc in Hw1. rewrite <- Hsc, <- Ha in Hw2.
  destruct (fed_prefix _ _ _ HT) as [rest Hrest].
  split; [|split; [done|]].
  - exists (to_scrape (workers s !! 0) ++ rest).
    by rewrite (assoc_L (++)), <- Hw1.
  - intros rs Hm.
    destruct (finished_facts _ _ _ _ _ Hrun Hm) as (-> & _ & Hrc).
    destruct (closed_facts _ _ HS Hrc) as (Hall & Hlen & _).
    pose proof (closed_fed 1 _ _ _ ltac:(lia) Hrun Hrc) as Hfed.
    destruct (workers s) as [|w ws]; [simpl in Hlen; lia|].
    apply Forall_cons in Hall as [-> _]. simpl in Hw1, Hw2.
    rewrite app_nil_r in Hw1, Hw2.
    assert ((scrapes tr).*1 = urls) as Hs1 by congruence.
    split; [done|]. rewrite <- Hw2, <- Hs1.
    clear -Hurl. induction Hurl as [|[u r] l Hu _ IH]; [done|].
    simpl in *. f_equal; [exact Hu|exact IH].
Qed.

(** C9: whatever the outcome of the request, the result of [scrapeURL]
    carries the URL it was called with, and its Duration is the time
    elapsed between the start of the call and the return of [http.Get]. *)
Theorem C9_scrapeURL_url_duration (url : string) (w : World) :
  URL (scrapeURL url w).1 = url
  /\ Duration (scrapeURL url w).1 = time_Since (time_Now w) (http_Get url w).2.
Proof. unfold scrapeURL. by destruct (http_Get url w) as [[resp|err] w1]. Qed.

(** C10: on a failed fetch the result has a non-nil Error and zero
    StatusCode and ContentLength; on a successful one Error is nil and
    the payload is the response's; a result with an error never carries a
    payload. *)
Theorem C10_error_or_payload (url : string) (w : World) :
  let r := (scrapeURL url w).1 in
  (forall err, (http_Get url w).1 = inr err ->
     Error r = Some err /\ StatusCode r = 0%Z /\ ContentLength r = 0%Z)
  /\ (forall resp, (http_Get url w).1 = inl resp ->
        Error r = None /\ StatusCode r = resp_StatusCode resp
        /\ ContentLength r = resp_ContentLength resp)
  /\ (Error r <> None -> StatusCode r = 0%Z /\ ContentLength r = 0%Z).
Proof.
  unfold scrapeURL. destruct (http_Get url w) as [[resp|err] w1]; simpl.
  - split; [intros ? [=]|]. split; [by intros ? [= <-]|done].
  - split; [by intros ? [= <-]|]. split; [intros ? [=]|done].
Qed.

End Claims.

(* ------------------------------------------------------------------ *)
(** ** The program on concrete inputs *)

(** The scheduler's run of [main]'s own configuration ends with [main]
    holding eight results, the fifth URL's being the failed one. *)
Example demo_run_finishes :
  run (E := demo_env) main_numWorkers main_urls
      (sched_acts demo_env 0%Z main_numWorkers main_urls) init
  = Some (sched_end demo_env 0%Z main_numWorkers main_urls)
  /\ main (sched_state demo_env 0%Z main_numWorkers main_urls)
     = MFinished (sched_results demo_env 0%Z main_numWorkers main_urls)
  /\ length (sched_results demo_env 0%Z main_numWorkers main_urls) = 8
  /\ length (filter (fun r => Error r <> None)
               (sched_results demo_env 0%Z main_numWorkers main_urls)) = 1.
Proof. vm_compute. repeat split. Qed.

Example demo_scrape_failure :
  (scrapeURL (E := demo_env) failing_url 5%Z).1
  = mkScrapeResult failing_url 0%Z 0%Z 3000%Z
      (Some (errorString "context deadline exceeded")).
Proof. reflexivity. Qed.

Example demo_scrape_success :
  (scrapeURL (E := demo_env) "https://httpbin.org/get" 5%Z).1
  = mkScrapeResult "https://httpbin.org/get" 200%Z 23%Z 1000%Z None.
Proof. reflexivity. Qed.


(** C1 on [main]'s own configuration, four workers and eight URLs. *)
Lemma C1_witness :
  (1 <= main_numWorkers)%Z
  /\ run (E := demo_env) main_numWorkers main_urls
         (sched_acts demo_env 0%Z main_numWorkers main_urls) init
     = Some (sched_trace demo_env 0%Z main_numWorkers main_urls,
             sched_state demo_env 0%Z main_numWorkers main_urls)
  /\ main (sched_state demo_env 0%Z main_numWorkers main_urls)
     = MFinished (sched_results demo_env 0%Z main_numWorkers main_urls)
  /\ URL <$> sched_results demo_env 0%Z main_numWorkers main_urls ≡ₚ main_urls
  /\ length (sched_results demo_env 0%Z main_numWorkers main_urls)
     = length main_urls
  /\ (feeds (sched_trace demo_env 0%Z main_numWorkers main_urls)).*2 = main_urls
  /\ Forall (fun iu => (Z.of_nat iu.1 < main_numWorkers)%Z)
       (feeds (sched_trace demo_env 0%Z main_numWorkers main_urls))
  /\ (scrapes (sched_trace demo_env 0%Z main_numWorkers main_urls)).*1
     ≡ₚ main_urls
  /\ (scrapes (sched_trace demo_env 0%Z main_numWorkers main_urls)).*2
     ≡ₚ sched_results demo_env 0%Z main_numWorkers main_urls.
Proof.
  assert (1 <= main_numWorkers)%Z as HN by (unfold main_numWorkers; lia).
  assert (run (E := demo_env) main_numWorkers main_urls
              (sched_acts demo_env 0%Z main_numWorkers main_urls) init
          = Some (sched_trace demo_env 0%Z main_numWorkers main_urls,
                  sched_state demo_env 0%Z main_numWorkers main_urls)) as Hrun
    by (vm_compute; reflexivity).
  assert (main (sched_state demo_env 0%Z main_numWorkers main_urls)
          = MFinished (sched_results demo_env 0%Z main_numWorkers main_urls)) as Hm
    by (vm_compute; reflexivity).
  split; [exact HN|]. split; [exact Hrun|]. split; [exact Hm|].
  exact (proj1 (C1_one_result_per_task (E := demo_env) main_numWorkers
                  main_urls 0%Z HN) _ _ _ _ Hrun Hm).
Defined.

(** C2 on the same run: at its end [resultChannel] is closed, the four
    workers have exited and the counter is back at zero. *)
Lemma C2_witness :
  run (E := demo_env) main_numWorkers main_urls
      (sched_acts demo_env 0%Z main_numWorkers main_urls) init
  = Some (sched_trace demo_env 0%Z main_numWorkers main_urls,
          sched_state demo_env 0%Z main_numWorkers main_urls)
  /\ resultClosed (sched_state demo_env 0%Z main_numWorkers main_urls) = true
  /\ Forall (fun w => w = WExited)
       (workers (sched_state demo_env 0%Z main_numWorkers main_urls))
  /\ length (workers (sched_state demo_env 0%Z main_numWorkers main_urls))
     = Z.to_nat main_numWorkers
  /\ wg (sched_state demo_env 0%Z main_numWorkers main_urls) = 0%Z.
Proof.
  assert (run (E := demo_env) main_numWorkers main_urls
              (sched_acts demo_env 0%Z main_numWorkers main_urls) init
          = Some (sched_trace demo_env 0%Z main_numWorkers main_urls,
                  sched_state demo_env 0%Z main_numWorkers main_urls)) as Hrun
    by (vm_compute; reflexivity).
  assert (resultClosed (sched_state demo_env 0%Z main_numWorkers main_urls)
          = true) as Hrc by (vm_compute; reflexivity).
  split; [exact Hrun|]. split; [exact Hrc|].
  exact (proj1 (C2_close_after_all_workers (E := demo_env) _ _ _ _ _ Hrun) Hrc).
Defined.

(** C3 on the same run: one delivery, of the results in arrival order. *)
Lemma C3_witness :
  run (E := demo_env) main_numWorkers main_urls
      (sched_acts demo_env 0%Z main_numWorkers main_urls) init
  = Some (sched_trace demo_env 0%Z main_numWorkers main_urls,
          sched_state demo_env 0%Z main_numWorkers main_urls)
  /\ delivered (sched_trace demo_env 0%Z main_numWorkers main_urls)
     = match main (sched_state demo_env 0%Z main_numWorkers main_urls) with
       | MFinished rs => [rs]
       | _ => []
       end
  /\ (scrapes (sched_trace demo_env 0%Z main_numWorkers main_urls)).*2
     ≡ₚ collection (sched_state demo_env 0%Z main_numWorkers main_urls)
        ++ (workers (sched_state demo_env 0%Z main_numWorkers main_urls)
            ≫= held).
Proof.
  assert (run (E := demo_env) main_numWorkers main_urls
              (sched_acts demo_env 0%Z main_numWorkers main_urls) init
          = Some (sched_trace demo_env 0%Z main_numWorkers main_urls,
                  sched_state demo_env 0%Z main_numWorkers main_urls)) as Hrun
    by (vm_compute; reflexivity).
  split; [exact Hrun|].
  destruct (C3_collector_delivers_once (E := demo_env) _ _ 0%Z _ _ _ Hrun)
    as (_ & Hdel & _ & _ & Hall & _).
  exact (conj Hdel Hall).
Defined.


(** C5 with one worker holding the unreachable URL. *)
Lemma C5_witness :
  run (E := demo_env) 1 [failing_url] failing_acts init
  = Some (failing_end.1, failing_end.2)
  /\ workers failing_end.2 !! 0 = Some (WScrape failing_url)
  /\ (http_Get (Env := demo_env) failing_url 0%Z).1
     = inr (errorString "context deadline exceeded")
  /\ exists r s1,
       step (E := demo_env) 1 [failing_url] (AScrape (E := demo_env) 0 0%Z) failing_end.2
       = Some (EvScrape 0 failing_url r, s1)
       /\ URL r = failing_url
       /\ Error r = Some (errorString "context deadline exceeded")
       /\ workers s1 !! 0 = Some (WSend r)
       /\ (forall j, j <> 0 -> workers s1 !! j = workers failing_end.2 !! j)
       /\ panicked s1 = false.
Proof.
  assert (run (E := demo_env) 1 [failing_url] failing_acts init
          = Some (failing_end.1, failing_end.2)) as Hrun
    by (vm_compute; reflexivity).
  assert (workers failing_end.2 !! 0 = Some (WScrape failing_url)) as Hw
    by (vm_compute; reflexivity).
  assert ((http_Get (Env := demo_env) failing_url 0%Z).1
          = inr (errorString "context deadline exceeded")) as Hget
    by (vm_compute; reflexivity).
  split; [exact Hrun|]. split; [exact Hw|]. split; [exact Hget|].
  exact (proj1 (C5_failure_is_data (E := demo_env) _ _ 0%Z _ _ _ 0 Hrun)
           failing_url 0%Z _ Hw Hget).
Defined.

(** C6 on a network that always answers and on one that never does. *)
Lemma C6_witness :
  (1 <= 2)%Z
  /\ ((forall url w, exists resp, (http_Get (Env := up_env) url w).1 = inl resp)
      /\ run (E := up_env) 2 probe_urls (sched_acts up_env 0%Z 2 probe_urls) init
         = Some (sched_trace up_env 0%Z 2 probe_urls,
                 sched_state up_env 0%Z 2 probe_urls)
      /\ main (sched_state up_env 0%Z 2 probe_urls)
         = MFinished (sched_results up_env 0%Z 2 probe_urls)
      /\ Forall (fun r => Error r = None) (sched_results up_env 0%Z 2 probe_urls)
      /\ length (sched_results up_env 0%Z 2 probe_urls) = length probe_urls)
  /\ ((forall url w, exists err, (http_Get (Env := down_env) url w).1 = inr err)
      /\ run (E := down_env) 2 probe_urls
             (sched_acts down_env 0%Z 2 probe_urls) init
         = Some (sched_trace down_env 0%Z 2 probe_urls,
                 sched_state down_env 0%Z 2 probe_urls)
      /\ main (sched_state down_env 0%Z 2 probe_urls)
         = MFinished (sched_results down_env 0%Z 2 probe_urls)
      /\ Forall (fun r => Error r <> None)
           (sched_results down_env 0%Z 2 probe_urls)
      /\ length (sched_results down_env 0%Z 2 probe_urls) = length probe_urls).
Proof.
  assert (1 <= 2)%Z as HN by lia.
  assert (forall url w,
            exists resp, (http_Get (Env := up_env) url w).1 = inl resp) as Hup
    by (intros url w; eexists; reflexivity).
  assert (forall url w,
            exists err, (http_Get (Env := down_env) url w).1 = inr err) as Hdown
    by (intros url w; eexists; reflexivity).
  assert (run (E := up_env) 2 probe_urls (sched_acts up_env 0%Z 2 probe_urls) init
          = Some (sched_trace up_env 0%Z 2 probe_urls,
                  sched_state up_env 0%Z 2 probe_urls)) as Hrun1
    by (vm_compute; reflexivity).
  assert (main (sched_state up_env 0%Z 2 probe_urls)
          = MFinished (sched_results up_env 0%Z 2 probe_urls)) as Hm1
    by (vm_compute; reflexivity).
  assert (run (E := down_env) 2 probe_urls
              (sched_acts down_env 0%Z 2 probe_urls) init
          = Some (sched_trace down_env 0%Z 2 probe_urls,
                  sched_state down_env 0%Z 2 probe_urls)) as Hrun2
    by (vm_compute; reflexivity).
  assert (main (sched_state down_env 0%Z 2 probe_urls)
          = MFinished (sched_results down_env 0%Z 2 probe_urls)) as Hm2
    by (vm_compute; reflexivity).
  split; [exact HN|]. split.
  - split; [exact Hup|]. split; [exact Hrun1|]. split; [exact Hm1|].
    exact (proj1 (C6_uniform_outcomes (E := up_env) 2 probe_urls 0%Z HN)
             Hup _ _ _ _ Hrun1 Hm1).
  - split; [exact Hdown|]. split; [exact Hrun2|]. split; [exact Hm2|].
    exact (proj1 (proj2 (C6_uniform_outcomes (E := down_env) 2 probe_urls
                           0%Z HN) Hdown) _ _ _ _ Hrun2 Hm2).
Defined.

(** C7 on [main]'s configuration: the whole list was handed out, in
    order, and [urlChannel] closed once. *)
Lemma C7_witness :
  run (E := demo_env) main_numWorkers main_urls
      (sched_acts demo_env 0%Z main_numWorkers main_urls) init
  = Some (sched_trace demo_env 0%Z main_numWorkers main_urls,
          sched_state demo_env 0%Z main_numWorkers main_urls)
  /\ (1 <= main_numWorkers)%Z
  /\ is_finished (sched_state demo_env 0%Z main_numWorkers main_urls) = true
  /\ fed (sched_trace demo_env 0%Z main_numWorkers main_urls) = main_urls
  /\ url_closes (sched_trace demo_env 0%Z main_numWorkers main_urls) = [tt].
Proof.
  assert (run (E := demo_env) main_numWorkers main_urls
              (sched_acts demo_env 0%Z main_numWorkers main_urls) init
          = Some (sched_trace demo_env 0%Z main_numWorkers main_urls,
                  sched_state demo_env 0%Z main_numWorkers main_urls)) as Hrun
    by (vm_compute; reflexivity).
  assert (1 <= main_numWorkers)%Z as HN by (unfold main_numWorkers; lia).
  assert (is_finished (sched_state demo_env 0%Z main_numWorkers main_urls)
          = true) as Hf by (vm_compute; reflexivity).
  split; [exact Hrun|]. split; [exact HN|]. split; [exact Hf|].
  exact (proj1 (proj2 (proj2 (proj2
           (C7_feeder_in_order (E := demo_env) _ _ _ _ _ Hrun)))) HN Hf).
Defined.

(** C8 with a single worker on [main]'s URL list. *)
Lemma C8_witness :
  run (E := demo_env) 1 main_urls (sched_acts demo_env 0%Z 1 main_urls) init
  = Some (sched_trace demo_env 0%Z 1 main_urls,
          sched_state demo_env 0%Z 1 main_urls)
  /\ main (sched_state demo_env 0%Z 1 main_urls)
     = MFinished (sched_results demo_env 0%Z 1 main_urls)
  /\ (scrapes (sched_trace demo_env 0%Z 1 main_urls)).*1 = main_urls
  /\ URL <$> sched_results demo_env 0%Z 1 main_urls = main_urls.
Proof.
  assert (run (E := demo_env) 1 main_urls
              (sched_acts demo_env 0%Z 1 main_urls) init
          = Some (sched_trace demo_env 0%Z 1 main_urls,
                  sched_state demo_env 0%Z 1 main_urls)) as Hrun
    by (vm_compute; reflexivity).
  assert (main (sched_state demo_env 0%Z 1 main_urls)
          = MFinished (sched_results demo_env 0%Z 1 main_urls)) as Hm
    by (vm_compute; reflexivity).
  split; [exact Hrun|]. split; [exact Hm|].
  exact (proj2 (proj2 (proj2 (proj2
           (C8_worker_order (E := demo_env) 1 _ _ _ _ Hrun)) eq_refl)) _ Hm).
Defined.

(** C10 on an unreachable and on a reachable endpoint. *)
Lemma C10_witness :
  ((http_Get (Env := demo_env) failing_url 0%Z).1
   = inr (errorString "context deadline exceeded")
   /\ Error (scrapeURL (E := demo_env) failing_url 0%Z).1
      = Some (errorString "context deadline exceeded")
   /\ StatusCode (scrapeURL (E := demo_env) failing_url 0%Z).1 = 0%Z
   /\ ContentLength (scrapeURL (E := demo_env) failing_url 0%Z).1 = 0%Z)
  /\ ((http_Get (Env := demo_env) "https://httpbin.org/get" 0%Z).1
      = inl (mkResponse 200 23)
      /\ Error (scrapeURL (E := demo_env) "https://httpbin.org/get" 0%Z).1 = None
      /\ StatusCode (scrapeURL (E := demo_env) "https://httpbin.org/get" 0%Z).1
         = 200%Z
      /\ ContentLength (scrapeURL (E := demo_env) "https://httpbin.org/get" 0%Z).1
         = 23%Z).
Proof.
  assert ((http_Get (Env := demo_env) failing_url 0%Z).1
          = inr (errorString "context deadline exceeded")) as Hfail
    by reflexivity.
  assert ((http_Get (Env := demo_env) "https://httpbin.org/get" 0%Z).1
          = inl (mkResponse 200 23)) as Hok by reflexivity.
  split.
  - split; [exact Hfail|].
    exact (proj1 (C10_error_or_payload (E := demo_env) failing_url 0%Z)
             _ Hfail).
  - split; [exact Hok|].
    exact (proj1 (proj2 (C10_error_or_payload (E := demo_env)
                           "https://httpbin.org/get" 0%Z)) _ Hok).
Defined.

(* ------------------------------------------------------------------ *)
(** * Further properties *)

(* ------------------------------------------------------------------ *)
(** ** 64-bit arithmetic *)

Lemma wrap64_range z : (- 2 ^ 63 <= wrap64 z < 2 ^ 63)%Z.
Proof. unfold wrap64. pose proof (Z.mod_pos_bound (z + 2 ^ 63) (2 ^ 64)). lia. Qed.

Lemma wrap64_small z : (- 2 ^ 63 <= z < 2 ^ 63)%Z -> wrap64 z = z.
Proof. intros Hz. unfold wrap64. rewrite Z.mod_small; lia. Qed.

Lemma wrap64_add_l x y : wrap64 (wrap64 x + y) = wrap64 (x + y).
Proof.
  unfold wrap64. f_equal.
  replace ((x + 2 ^ 63) mod 2 ^ 64 - 2 ^ 63 + y + 2 ^ 63)%Z
    with ((x + 2 ^ 63) mod 2 ^ 64 + y)%Z by lia.
  rewrite Zplus_mod_idemp_l. f_equal. lia.
Qed.

Lemma wrap64_idemp z : wrap64 (wrap64 z) = wrap64 z.
Proof. apply wrap64_small, wrap64_range. Qed.

(* ------------------------------------------------------------------ *)
(** ** The loops of [main]'s summary *)

Lemma successCount_acc rs : forall a,
  fold_left (fun n result =>
               match Error result with
               | None => wrap64 (n + 1)
               | Some _ => n
               end) rs (wrap64 a)
  = wrap64 (a + Z.of_nat (count_succeeded rs)).
Proof.
  unfold count_succeeded, succeeded.
  induction rs as [|r rs IH]; intros a; simpl.
  - by rewrite Z.add_0_r.
  - destruct (Error r); simpl.
    + apply IH.
    + rewrite wrap64_add_l, IH. f_equal. lia.
Qed.

Lemma successCount_wrap rs :
  successCount rs = wrap64 (Z.of_nat (count_succeeded rs)).
Proof.
  unfold successCount. change 0%Z with (wrap64 0) at 1.
  by rewrite successCount_acc.
Qed.

Lemma totalProcessingTime_acc rs : forall a,
  fold_left (fun t result => wrap64 (t + Duration result)) rs (wrap64 a)
  = wrap64 (a + sum_durations rs).
Proof.
  induction rs as [|r rs IH]; intros a; simpl.
  - by rewrite Z.add_0_r.
  - rewrite wrap64_add_l, IH. f_equal. lia.
Qed.

Lemma count_split rs : count_succeeded rs + count_failed rs = length rs.
Proof.
  unfold count_succeeded, count_failed.
  induction rs as [|r rs IH]; [done|]. simpl.
  destruct (succeeded r); simpl; lia.
Qed.

Lemma count_succeeded_perm rs rs' :
  rs ≡ₚ rs' -> count_succeeded rs = count_succeeded rs'.
Proof.
  unfold count_succeeded. induction 1; simpl; try lia.
  - destruct (succeeded x); simpl; lia.
  - destruct (succeeded x), (succeeded y); simpl; lia.
Qed.

Lemma sum_durations_perm rs rs' :
  rs ≡ₚ rs' -> sum_durations rs = sum_durations rs'.
Proof. unfold sum_durations. induction 1; simpl; lia. Qed.

Lemma summary_counts_aux (numWorkers : Z) (results : list ScrapeResult) :
  (Z.of_nat (length results) < 2 ^ 63)%Z ->
  sum_successful (main_summary numWorkers results)
  = Z.of_nat (count_succeeded results)
  /\ sum_failed (main_summary numWorkers results)
     = Z.of_nat (count_failed results)
  /\ (sum_successful (main_summary numWorkers results)
      + sum_failed (main_summary numWorkers results)
      = sum_processed (main_summary numWorkers results))%Z.
Proof.
  intros Hlen. pose proof (count_split results) as Hs. simpl.
  rewrite successCount_wrap, !wrap64_small by lia. lia.
Qed.

(** X8: the "Successful" and "Failed" figures of the summary are the numbers
    of results without and with an error, and add up to "Total URLs
    processed". *)
Theorem summary_counts (numWorkers : Z) (results : list ScrapeResult) :
  (Z.of_nat (length results) < 2 ^ 63)%Z ->
  sum_successful (main_summary numWorkers results)
  = Z.of_nat (count_succeeded results)
  /\ sum_failed (main_summary numWorkers results)
     = Z.of_nat (count_failed results)
  /\ (sum_successful (main_summary numWorkers results)
      + sum_failed (main_summary numWorkers results)
      = sum_processed (main_summary numWorkers results))%Z.
Proof. apply summary_counts_aux. Qed.

(** X9: the summary does not depend on the order in which the results
    arrived. *)
Theorem summary_order_independent (numWorkers : Z) (rs rs' : list ScrapeResult) :
  rs ≡ₚ rs' -> main_summary numWorkers rs = main_summary numWorkers rs'.
Proof.
  intros Hp. unfold main_summary.
  rewrite !successCount_wrap, (count_succeeded_perm _ _ Hp).
  unfold totalProcessingTime. change 0%Z with (wrap64 0).
  rewrite !totalProcessingTime_acc, (sum_durations_perm _ _ Hp).
  by rewrite (Permutation_length Hp).
Qed.

(** X10: the total processing time is the sum of the durations modulo 2^64,
    hence the sum itself whenever that fits an int64. *)
Theorem totalProcessingTime_sum (results : list ScrapeResult) :
  totalProcessingTime results = wrap64 (sum_durations results)
  /\ ((- 2 ^ 63 <= sum_durations results < 2 ^ 63)%Z ->
      totalProcessingTime results = sum_durations results).
Proof.
  assert (totalProcessingTime results = wrap64 (sum_durations results)) as Ht.
  { unfold totalProcessingTime. change 0%Z with (wrap64 0) at 1.
    by rewrite totalProcessingTime_acc. }
  split; [done|]. intros Hr. by rewrite Ht, wrap64_small.
Qed.

(* ------------------------------------------------------------------ *)
(** ** The collector's output *)

Lemma resultCollector_loop_spec stream : forall results (k : nat),
  (Z.of_nat k + Z.of_nat (length stream) < 2 ^ 63)%Z ->
  resultCollector_loop stream results (Z.of_nat k)
  = (concat (imap (fun j r => [OutIndex (Z.of_nat (k + j) + 1); printResult r])
                  stream),
     results ++ stream, Z.of_nat (k + length stream)).
Proof.
  induction stream as [|r stream IH]; intros results k Hk; simpl.
  - by rewrite app_nil_r, Nat.add_0_r.
  - simpl in Hk. rewrite wrap64_small by lia.
    replace (Z.of_nat k + 1)%Z with (Z.of_nat (S k)) by lia.
    rewrite IH by lia.
    rewrite <- (assoc_L (++)). simpl.
    assert (imap (fun j r0 => [OutIndex (Z.of_nat (S (k + j)) + 1); printResult r0])
                 stream
            = imap ((fun j r0 => [OutIndex (Z.of_nat (k + j) + 1); printResult r0])
                    ∘ S) stream) as ->.
    { apply imap_ext. intros j x _. simpl. do 2 f_equal. lia. }
    repeat f_equal; lia.
Qed.

Lemma resultCollector_loop_errors stream : forall results n,
  length (List.filter is_error_line (resultCollector_loop stream results n).1.1)
  = count_failed stream.
Proof.
  unfold count_failed, succeeded.
  induction stream as [|r stream IH]; intros results n; simpl; [done|].
  specialize (IH (results ++ [r]) (wrap64 (n + 1))).
  destruct (resultCollector_loop stream (results ++ [r]) (wrap64 (n + 1)))
    as [[out rs] m]. simpl in *.
  unfold printResult. destruct (Error r); simpl; by rewrite IH.
Qed.

(** X7: [resultCollector] sends on [done] exactly the results it received, in
    the order received; it prints one line per result, the [k]-th
    preceded by the index [k], counting from 1, and at the end the number
    of results; it prints as many ERROR lines as there are results with
    an error. *)
Theorem resultCollector_output (stream : list ScrapeResult) :
  (Z.of_nat (length stream) < 2 ^ 63)%Z ->
  resultCollector stream
  = (OutCollectorStarted :: collector_lines stream
       ++ [OutCollected (Z.of_nat (length stream))],
     stream)
  /\ length (List.filter is_error_line (resultCollector stream).1)
     = count_failed stream.
Proof.
  intros Hlen. unfold resultCollector.
  pose proof (resultCollector_loop_errors stream [] 0%Z) as Herr.
  pose proof (resultCollector_loop_spec stream [] 0 ltac:(simpl; lia)) as Hspec.
  change (Z.of_nat 0) with 0%Z in Hspec. simpl in Hspec.
  rewrite Hspec in Herr. rewrite Hspec. clear Hspec.
  simpl in *. split; [done|].
  rewrite List.filter_app. simpl. rewrite app_nil_r. exact Herr.
Qed.

(* ------------------------------------------------------------------ *)
(** ** More on the pool *)

Lemma live_le ws : live ws <= length ws.
Proof.
  unfold live. induction ws as [|w ws IH]; simpl; [done|].
  destruct w; simpl; lia.
Qed.

Lemma inflight_le ws : length (ws ≫= inflight) <= length ws.
Proof.
  induction ws as [|w ws IH]; [done|].
  rewrite bind_cons, length_app. destruct w; simpl; lia.
Qed.

(** X1: the WaitGroup counter is the number of workers started and not yet
    past [wg.Done()], plus one while [main] is between [wg.Add(1)] and the
    [go] statement; it never leaves the range from 0 to [N]. *)
Theorem wg_counter_bounds {E : Env} (N : Z) (urls : list string)
    (acts : list Action) (tr : list Event) (s : Pool) :
  run N urls acts init = Some (tr, s) ->
  wg s = (Z.of_nat (live (workers s))
          + match main s with MGoWorker _ => 1 | _ => 0 end)%Z
  /\ (0 <= wg s <= Z.max 0 N)%Z.
Proof.
  intros Hrun%run_init_Reach. destruct (Reach_inv _ _ _ _ Hrun) as [HS _].
  pose proof (st_wg _ _ HS) as Hwg. split; [done|].
  pose proof (workers_bound _ _ HS) as Hb. pose proof (live_le (workers s)) as Hl.
  pose proof (st_phase _ _ HS) as Hph. unfold phase_ok in Hph.
  destruct (main s); lia.
Qed.

(** X2: bounded concurrency: the URLs handed out are, up to order, those of
    the results the collector has received and those the workers hold;
    a worker holds at most one, so never more than [N] are handed out
    and not yet collected. *)
Theorem tasks_in_flight_bounded {E : Env} (N : Z) (urls : list string)
    (acts : list Action) (tr : list Event) (s : Pool) :
  run N urls acts init = Some (tr, s) ->
  fed tr ≡ₚ (URL <$> arrivals tr) ++ (workers s ≫= inflight)
  /\ length (fed tr) = length (arrivals tr) + length (workers s ≫= inflight)
  /\ length (workers s ≫= inflight) <= length (workers s)
  /\ (Z.of_nat (length (workers s)) <= Z.max 0 N)%Z.
Proof.
  intros Hrun%run_init_Reach. destruct (Reach_inv _ _ _ _ Hrun) as [HS HT].
  split; [apply (tr_perm _ _ _ HT)|].
  split; [|split; [apply inflight_le|by apply workers_bound]].
  by rewrite (tr_perm _ _ _ HT), length_app, length_fmap.
Qed.

(** X3: with at least one worker, when [main] has its collection every
    goroutine has returned, both channels are closed, the counter is zero
    and nothing can move any more. *)
Theorem clean_shutdown {E : Env} (N : Z) (urls : list string)
    (acts : list Action) (tr : list Event) (s : Pool) :
  (1 <= N)%Z -> run N urls acts init = Some (tr, s) -> is_finished s = true ->
  feeder s = Some FExited
  /\ Forall (fun w => w = WExited) (workers s)
  /\ length (workers s) = Z.to_nat N
  /\ collector s = Some CExited /\ coordinator s = Some KExited
  /\ urlClosed s = true /\ resultClosed s = true /\ wg s = 0%Z
  /\ forall a, step N urls a s = None.
Proof.
  intros HN Hrun%run_init_Reach Hf. unfold is_finished in Hf.
  destruct (main s) as [| | | | | |rs] eqn:Hm; try done.
  destruct (Reach_inv _ _ _ _ Hrun) as [HS HT].
  destruct (finished_facts _ _ _ _ _ Hrun Hm) as (_ & _ & Hrc).
  destruct (closed_facts _ _ HS Hrc) as (Hall & Hlen & Hwg).
  pose proof (closed_fed _ _ _ _ HN Hrun Hrc) as Hfed.
  pose proof (st_phase _ _ HS) as Hph. unfold phase_ok in Hph. rewrite Hm in Hph.
  destruct Hph as (_ & Hcol & _).
  pose proof (st_res _ _ HS) as Hres. rewrite Hrc in Hres.
  assert (coordinator s = Some KExited) as Hk
    by (by destruct (coordinator s) as [[]|]).
  assert (urlClosed s = true) as Huc.
  { pose proof (st_past _ _ HS) as Hpast.
    destruct (workers s) as [|w ws]; [simpl in Hlen; lia|].
    apply Forall_cons in Hall as [-> _]. apply Forall_cons in Hpast as [Hp _].
    by apply Hp. }
  pose proof (st_url _ _ HS) as Hu. rewrite Huc in Hu.
  assert (feeder s = Some FExited) as Hfd by (by destruct (feeder s) as [[]|]).
  repeat split; try done.
  intros a. unfold step. destruct (panicked s); [done|].
  destruct a; simpl;
    unfold main_step, feed_step, closeUrl_step, worker_step, result_step,
      coordinator_step, resultCollector_step;
    rewrite ?Hm, ?Hfd, ?Hcol, ?Hk; try done.
  all: destruct (workers s !! i) as [wk|] eqn:Hwk; [|done];
    by rewrite (Forall_lookup_1 _ _ _ _ Hall Hwk).
Qed.

(** X4: without workers and with a non-empty list the feeder never gets past
    its first send: [urlChannel] is never closed, nothing is scraped, and
    when [main] has its (empty) collection and nothing can move any more
    the feeder goroutine is still blocked. *)
Theorem no_workers_feeder_blocked {E : Env} (N : Z) (urls : list string)
    (acts : list Action) (tr : list Event) (s : Pool) :
  (N <= 0)%Z -> urls <> [] -> run N urls acts init = Some (tr, s) ->
  urlClosed s = false
  /\ (feeder s = None \/ feeder s = Some (FSend urls))
  /\ scrapes tr = []
  /\ (is_finished s = true ->
      feeder s = Some (FSend urls) /\ forall a, step N urls a s = None).
Proof.
  intros HN Hne Hrun%run_init_Reach.
  destruct (Reach_inv _ _ _ _ Hrun) as [HS HT].
  pose proof (workers_bound _ _ HS) as Hb.
  assert (workers s = []) as Hws
    by (destruct (workers s); [done|simpl in Hb; lia]).
  pose proof (tr_idx _ _ _ HT) as Hidx. rewrite Hws in Hidx.
  destruct (no_worker_events _ Hidx) as [Hf Ha].
  pose proof (tr_fed _ _ _ HT) as Hfed. rewrite Hf in Hfed.
  pose proof (st_url _ _ HS) as Hu.
  pose proof (tr_recv _ _ _ HT) as Hrecv. rewrite Hf, Hws in Hrecv.
  assert (scrapes tr = []) as Hsc.
  { simpl in Hrecv. rewrite app_nil_r in Hrecv.
    symmetry in Hrecv. apply Permutation_nil_r in Hrecv.
    by destruct (scrapes tr). }
  assert (feeder s = None \/ feeder s = Some (FSend urls)) as Hfd.
  { destruct (feeder s) as [[rest|]|]; simpl in Hfed; [right|done|by left].
    by subst. }
  split; [by destruct Hfd as [Hx|Hx]; rewrite Hx in Hu|].
  split; [done|]. split; [done|].
  intros Hfin. unfold is_finished in Hfin.
  destruct (main s) as [| | | | | |rs] eqn:Hm; try done.
  pose proof (st_phase _ _ HS) as Hph. unfold phase_ok in Hph. rewrite Hm in Hph.
  destruct Hph as (Hsome & Hcol & _).
  destruct Hfd as [Hx|Hx]; [rewrite Hx in Hsome; by destruct Hsome|].
  split; [done|].
  destruct (finished_facts _ _ _ _ _ Hrun Hm) as (_ & _ & Hrc).
  pose proof (st_res _ _ HS) as Hres. rewrite Hrc in Hres.
  assert (coordinator s = Some KExited) as Hk
    by (by destruct (coordinator s) as [[]|]).
  intros a. unfold step. destruct (panicked s); [done|].
  destruct urls as [|u rest]; [done|].
  destruct a; simpl;
    unfold main_step, feed_step, closeUrl_step, worker_step, result_step,
      coordinator_step, resultCollector_step;
    rewrite ?Hm, ?Hx, ?Hcol, ?Hk, ?Hws; try done.
  rewrite Hx in Hu. simpl in Hu. by rewrite Hu.
Qed.

(** X5: with an empty list nothing is handed out or scraped, whatever the
    number of workers, every run can still be continued until [main] has
    its collection, and that collection is empty. *)
Theorem empty_list_empty_collection {E : Env} (N : Z) (w0 : World)
    (acts : list Action) (tr : list Event) (s : Pool) :
  run N [] acts init = Some (tr, s) ->
  fed tr = [] /\ scrapes tr = [] /\ arrivals tr = []
  /\ (forall rs, main s = MFinished rs -> rs = [])
  /\ exists acts' tr' s',
       run N [] acts' s = Some (tr', s') /\ main s' = MFinished [].
Proof.
  intros Hrun%run_init_Reach.
  assert (forall tr s, Reach N [] tr s ->
            fed tr = [] /\ scrapes tr = [] /\ arrivals tr = []) as Hempty.
  { clear. intros tr s Hrun. destruct (Reach_inv _ _ _ _ Hrun) as [HS HT].
    destruct (fed_prefix _ _ _ HT) as [rest Hrest].
    symmetry in Hrest. apply app_eq_nil in Hrest as [Hf _].
    pose proof (tr_recv _ _ _ HT) as Hrecv. rewrite Hf in Hrecv.
    apply Permutation_nil_l in Hrecv. symmetry in Hrecv.
    apply app_eq_nil in Hrecv as [Hs1 _].
    assert (scrapes tr = []) as Hsc by (by destruct (scrapes tr)).
    pose proof (tr_calls _ _ _ HT) as Hcalls. rewrite Hsc in Hcalls.
    apply Permutation_nil_l in Hcalls. symmetry in Hcalls.
    by apply app_eq_nil in Hcalls as [Ha _]. }
  destruct (Hempty _ _ Hrun) as (Hf & Hsc & Ha).
  split; [done|]. split; [done|]. split; [done|]. split.
  - intros rs Hm. by destruct (finished_facts _ _ _ _ _ Hrun Hm) as (-> & _).
  - destruct (can_finish N [] w0 _ _ Hrun) as (acts' & tr' & s' & rs & Hrun' & Hm).
    exists acts', tr', s'. split; [done|].
    pose proof (run_Reach _ _ _ _ _ _ _ Hrun Hrun') as Hr'.
    destruct (finished_facts _ _ _ _ _ Hr' Hm) as (Hrs & _).
    destruct (Hempty _ _ Hr') as (_ & _ & Ha').
    rewrite Ha' in Hrs. by rewrite Hrs in Hm.
Qed.

(** X6: whatever of a result is fixed by its URL alone comes out the same, up
    to order, in every interleaving: any projection [g] of the results
    that [scrapeURL] determines from the URL as [h] gives, on the
    collection, the image of the list under [h]. *)
Theorem results_independent_of_schedule {E : Env} {A : Type}
    (g : ScrapeResult -> A) (h : string -> A)
    (N : Z) (urls : list string)
    (acts : list Action) (tr : list Event) (s : Pool) (rs : list ScrapeResult) :
  (forall url w, g (scrapeURL url w).1 = h url) ->
  (1 <= N)%Z -> run N urls acts init = Some (tr, s) -> main s = MFinished rs ->
  g <$> rs ≡ₚ h <$> urls.
Proof.
  intros Hg HN Hrun%run_init_Reach Hm.
  destruct (collection_complete _ _ _ _ _ HN Hrun Hm) as (_ & _ & _ & _ & Hc1 & Hc2).
  destruct (Reach_inv _ _ _ _ Hrun) as [_ HT].
  rewrite <- Hc2, <- Hc1.
  assert (g <$> (scrapes tr).*2 = h <$> (scrapes tr).*1) as ->; [|done].
  pose proof (tr_scr _ _ _ HT) as Hscr. clear -Hscr Hg.
  induction Hscr as [|[u r] l [_ [w Hw]] _ IH]; [done|].
  simpl in *. f_equal; [|exact IH]. by rewrite Hw, Hg.
Qed.

(** X11: end to end: in a run with at least one worker, the summary [main]
    prints reports as many URLs processed as the list has, and its
    successful and failed figures are the numbers of [scrapeURL] calls of
    the run that returned without and with an error. *)
Theorem summary_of_run {E : Env} (N : Z) (urls : list string)
    (acts : list Action) (tr : list Event) (s : Pool) (rs : list ScrapeResult) :
  (1 <= N)%Z -> (Z.of_nat (length urls) < 2 ^ 63)%Z ->
  run N urls acts init = Some (tr, s) -> main s = MFinished rs ->
  sum_processed (main_summary N rs) = Z.of_nat (length urls)
  /\ sum_successful (main_summary N rs)
     = Z.of_nat (count_succeeded (scrapes tr).*2)
  /\ sum_failed (main_summary N rs) = Z.of_nat (count_failed (scrapes tr).*2)
  /\ (sum_successful (main_summary N rs) + sum_failed (main_summary N rs)
      = Z.of_nat (length urls))%Z.
Proof.
  intros HN Hlen Hrun%run_init_Reach Hm.
  destruct (collection_complete _ _ _ _ _ HN Hrun Hm) as (_ & Hl & _ & _ & _ & Hc).
  rewrite <- Hl in Hlen.
  destruct (summary_counts_aux N rs Hlen) as (Hs & Hf & Hsum).
  pose proof (count_split rs) as Hsp. pose proof (count_split (scrapes tr).*2) as Hsp'.
  pose proof (count_succeeded_perm _ _ Hc) as Hcs.
  pose proof (Permutation_length Hc) as Hlc.
  rewrite Hs, Hf. simpl. rewrite Hl. repeat split; lia.
Qed.

(* ------------------------------------------------------------------ *)
(** ** The chat server *)

Lemma ws_Read_spec data buf :
  length buf = 1024 ->
  take (ws_Read data buf).1 (ws_Read data buf).2 = take 1024 data
  /\ length (ws_Read data buf).2 = 1024.
Proof.
  intros Hb. unfold ws_Read. simpl. rewrite Hb. split.
  - by rewrite take_app_length.
  - rewrite length_app, length_drop, length_take. lia.
Qed.

Lemma readLoop_from_spec s reads : forall buf,
  length buf = 1024 ->
  readLoop_from s reads buf
  = (chunks_read reads ≫= broadcast s,
     if has_eof reads then Returned else Reading).
Proof.
  induction reads as [|r reads IH]; intros buf Hb; [done|].
  destruct r as [data|err|]; [|by apply IH|done].
  destruct (ws_Read_spec data buf Hb) as [Htake Hlen].
  change (readLoop_from s (ReadData data :: reads) buf)
    with (let '(n, buf0) := ws_Read data buf in
          let '(writers, e) := readLoop_from s reads buf0 in
          (broadcast s (take n buf0) ++ writers, e)).
  destruct (ws_Read data buf) as [n buf'] eqn:Hread. simpl in Htake, Hlen.
  by rewrite (IH buf' Hlen), Htake.
Qed.

(** [broadcast] starts exactly one writer per registered connection,
    each with the bytes given. *)
Lemma broadcast_targets s b :
  NoDup (wr_conn <$> broadcast s b)
  /\ (forall c, c ∈ wr_conn <$> broadcast s b <-> is_Some (conns s !! c))
  /\ Forall (fun w => wr_bytes w = b) (broadcast s b)
  /\ length (broadcast s b) = size (conns s).
Proof.
  unfold broadcast.
  assert (wr_conn <$> ((fun kv : Conn * bool => mkWriter kv.1 b)
                         <$> map_to_list (conns s))
          = (map_to_list (conns s)).*1) as ->.
  { rewrite <- list_fmap_compose. by apply list_fmap_ext. }
  split; [apply NoDup_fst_map_to_list|]. split; [|split].
  - intros c. rewrite list_elem_of_fmap. split.
    + intros [[c' v] [-> Hin]]. apply elem_of_map_to_list in Hin. by exists v.
    + intros [v Hv]. exists (c, v). split; [done|]. by apply elem_of_map_to_list.
  - apply Forall_fmap, Forall_true. done.
  - by rewrite length_fmap, length_map_to_list.
Qed.

Lemma chunks_read_bound reads :
  Forall (fun c => length c <= 1024) (chunks_read reads).
Proof.
  induction reads as [|[data|err|] reads IH]; simpl; try done.
  constructor; [|done]. rewrite length_take. lia.
Qed.

Lemma chunks_read_eof pre post :
  chunks_read (pre ++ ReadEOF :: post) = chunks_read pre
  /\ has_eof (pre ++ ReadEOF :: post) = true.
Proof.
  induction pre as [|[data|err|] pre [IH1 IH2]]; simpl; try done.
  by rewrite IH1.
Qed.

Lemma length_bind_const {A B} (f : A -> list B) (k : nat) (l : list A) :
  (forall x, length (f x) = k) -> length (l ≫= f) = length l * k.
Proof.
  intros Hf. induction l as [|x l IH]; [done|].
  rewrite bind_cons, length_app, Hf, IH. simpl. lia.
Qed.

Lemma readLoop_spec s reads :
  readLoop s reads
  = (chunks_read reads ≫= broadcast s,
     if has_eof reads then Returned else Reading).
Proof. apply readLoop_from_spec. by rewrite length_replicate. Qed.

(** X12: [readLoop] calls [broadcast], in order, on exactly the bytes of each
    successful read made before the first [io.EOF] (at most 1024 at a
    time, and never bytes left in the buffer by an earlier read); a read
    error
    other than [io.EOF] does not end the loop; the loop returns exactly
    when [io.EOF] comes, and reads nothing after it. *)
Theorem readLoop_broadcasts (s : Server) (reads : list ReadResult) :
  readLoop s reads
  = (chunks_read reads ≫= broadcast s,
     if has_eof reads then Returned else Reading)
  /\ Forall (fun c => length c <= 1024) (chunks_read reads)
  /\ (forall err rest, readLoop s (ReadError err :: rest) = readLoop s rest)
  /\ (forall pre post,
         readLoop s (pre ++ ReadEOF :: post)
         = (chunks_read pre ≫= broadcast s, Returned)).
Proof.
  pose proof (readLoop_spec s) as Hspec.
  split; [apply Hspec|]. split; [apply chunks_read_bound|]. split.
  - intros err rest. by rewrite !Hspec.
  - intros pre post. rewrite Hspec.
    by destruct (chunks_read_eof pre post) as [-> ->].
Qed.

(** X13: [handleWS] registers the connection and never unregisters it, however
    its loop ends; it leaves the other entries alone; for every message
    it reads it starts one writer per registered connection, the
    sender's own among them. *)
Theorem handleWS_registers (s : Server) (ws : Conn) (reads : list ReadResult) :
  conns (handleWS s ws reads).1.1 !! ws = Some true
  /\ (forall c, c <> ws ->
        conns (handleWS s ws reads).1.1 !! c = conns s !! c)
  /\ (handleWS s ws reads).1.2
     = chunks_read reads ≫= broadcast (handleWS s ws reads).1.1
  /\ (forall chunk, chunk ∈ chunks_read reads ->
        mkWriter ws chunk ∈ (handleWS s ws reads).1.2)
  /\ length (handleWS s ws reads).1.2
     = length (chunks_read reads) * size (conns (handleWS s ws reads).1.1).
Proof.
  unfold handleWS.
  rewrite (readLoop_spec {| conns := <[ws:=true]> (conns s) |} reads). simpl.
  split; [apply lookup_insert_eq|]. split; [by intros c Hc; apply lookup_insert_ne|].
  split; [done|]. split.
  - intros chunk Hin. apply list_elem_of_bind. exists chunk. split; [|done].
    unfold broadcast. apply list_elem_of_fmap. exists (ws, true).
    split; [done|]. apply elem_of_map_to_list. simpl. apply lookup_insert_eq.
  - apply length_bind_const. intros b.
    by destruct (broadcast_targets {| conns := <[ws:=true]> (conns s) |} b)
      as (_ & _ & _ & ->).
Qed.

(* ------------------------------------------------------------------ *)
(** ** The chat page *)

Lemma App_step_state st ev :
  messages (App_step st ev).1 = messages st ++ received [ev]
  /\ isConnected (App_step st ev).1 = isConnected st || opened [ev]
  /\ (is_Some (socket (App_step st ev).1)
      <-> is_Some (socket st) \/ opened [ev] = true).
Proof.
  destruct ev as [|data| |[m|]]; simpl;
    try (destruct (socket st) eqn:Hs;
         try destruct (decide (m = EmptyString)); simpl);
    rewrite ?app_nil_r, ?orb_false_r, ?orb_true_r, ?Hs;
    (split; [done|]); (split; [done|]);
    split; try (by intros ?; left); try (by intros [?|?]); eauto.
Qed.

Lemma App_run_state st evs :
  messages (App_run st evs).1 = messages st ++ received evs
  /\ isConnected (App_run st evs).1 = isConnected st || opened evs
  /\ (is_Some (socket (App_run st evs).1)
      <-> is_Some (socket st) \/ opened evs = true).
Proof.
  revert st. induction evs as [|ev evs IH]; intros st.
  - simpl. rewrite app_nil_r, orb_false_r. intuition congruence.
  - destruct (App_step_state st ev) as (Hm & Hc & Hs).
    change (App_run st (ev :: evs))
      with (let '(st1, sent1) := App_step st ev in
            let '(st2, sent2) := App_run st1 evs in (st2, sent1 ++ sent2)).
    destruct (App_step st ev) as [st1 sent1]. specialize (IH st1).
    destruct (App_run st1 evs) as [st2 sent2]. simpl in *.
    destruct IH as (IH1 & IH2 & IH3). rewrite IH1, IH2, IH3, Hm, Hc, Hs.
    rewrite <- (assoc_L (++)), <- orb_assoc.
    destruct ev; simpl; (split; [done|]); (split; [done|]);
      rewrite ?orb_true_iff; intuition congruence.
Qed.

Lemma App_run_app st evs1 evs2 :
  App_run st (evs1 ++ evs2)
  = ((App_run (App_run st evs1).1 evs2).1,
     (App_run st evs1).2 ++ (App_run (App_run st evs1).1 evs2).2).
Proof.
  revert st. induction evs1 as [|ev evs1 IH]; intros st; simpl.
  - by destruct (App_run st evs2).
  - destruct (App_step st ev) as [st1 sent1]. rewrite IH.
    destruct (App_run st1 evs1) as [st2 sent2]. simpl.
    by rewrite (assoc_L (++)).
Qed.

Lemma App_run_unopened st evs :
  socket st = None -> opened evs = false -> (App_run st evs).2 = [].
Proof.
  revert st. induction evs as [|ev evs IH]; intros st Hs Ho; [done|].
  simpl in *. apply orb_false_iff in Ho as [Hev Ho].
  destruct ev as [|data| |[m|]]; simpl in *; try done; rewrite ?Hs;
    match goal with
    | |- context [App_run ?st' evs] =>
        assert (socket st' = None) as Hs' by (simpl; first [done | exact Hs]);
        specialize (IH st' Hs' Ho); destruct (App_run st' evs); simpl in *;
        by rewrite IH
    end.
Qed.

Lemma App_run_nonempty st evs : EmptyString ∉ (App_run st evs).2.
Proof.
  revert st. induction evs as [|ev evs IH]; intros st; simpl.
  - apply not_elem_of_nil.
  - destruct (App_step st ev) as [st1 sent1] eqn:Hstep.
    specialize (IH st1). destruct (App_run st1 evs) as [st2 sent2]. simpl in *.
    intros [Hin|Hin]%elem_of_app; [|done].
    destruct ev as [|data| |[m|]]; simpl in Hstep;
      try (destruct (socket st); try destruct (decide (m = EmptyString)));
      injection Hstep as <- <-; try by apply elem_of_nil in Hin.
    by apply list_elem_of_singleton in Hin.
Qed.

(** X14: the page shows every message received since it was mounted, in
    order of arrival, and nothing else; it says "Connected" from the
    moment the socket has opened and goes on saying so after the
    connection has ended, no handler being set for that. *)
Theorem App_messages_and_status (evs : list AppEvent) :
  messages (App_run App_init evs).1 = received evs
  /\ isConnected (App_run App_init evs).1 = opened evs
  /\ forall pre post,
       opened pre = true ->
       isConnected (App_run App_init (pre ++ OnClose :: post)).1 = true.
Proof.
  destruct (App_run_state App_init evs) as (Hm & Hc & _).
  split; [done|]. split; [done|]. intros pre post Ho.
  destruct (App_run_state App_init (pre ++ OnClose :: post)) as (_ & -> & _).
  simpl. unfold opened in *. by rewrite existsb_app, Ho.
Qed.

(** X15: submitting the form calls [socket.send] exactly when the message is
    non-empty and the socket has opened: what is submitted earlier is
    dropped without notice, the empty text is never sent, and the call is
    still made after the connection has ended. *)
Theorem App_submit_sends (pre : list AppEvent) (m : string) :
  (opened pre = false -> (App_run App_init pre).2 = [])
  /\ (EmptyString ∉ (App_run App_init pre).2)
  /\ (opened pre = false ->
        (App_run App_init (pre ++ [OnSubmit (Some m)])).2 = [])
  /\ (opened pre = true -> m <> EmptyString ->
        (App_run App_init (pre ++ [OnSubmit (Some m)])).2
        = (App_run App_init pre).2 ++ [m]).
Proof.
  split; [by apply App_run_unopened|]. split; [apply App_run_nonempty|]. split.
  - intros Ho. apply App_run_unopened; [done|].
    unfold opened in *. rewrite existsb_app, Ho. done.
  - intros Ho Hm. rewrite App_run_app. simpl.
    destruct (App_run_state App_init pre) as (_ & _ & Hs).
    destruct (proj2 Hs (or_intror Ho)) as [u Hu]. rewrite Hu.
    destruct (decide (m = EmptyString)); [done|]. done.
Qed.

(* ------------------------------------------------------------------ *)
(** ** Further runs on concrete inputs *)

(** A sum of durations that does not fit an int64 wraps round. *)
Example totalProcessingTime_overflow :
  totalProcessingTime
    [mkScrapeResult "a" 200%Z 0%Z (2 ^ 62)%Z None;
     mkScrapeResult "b" 200%Z 0%Z (2 ^ 62)%Z None]
  = (- 2 ^ 63)%Z.
Proof. reflexivity. Qed.

Example chat_server_run :
  (handleWS chat_server 3%positive chat_reads).2 = Returned
  /\ length (handleWS chat_server 3%positive chat_reads).1.2 = 6.
Proof. vm_compute. done. Qed.

(** X8 on concrete data. *)
Lemma summary_counts_witness :
  (Z.of_nat (length (sched_results demo_env 0%Z main_numWorkers main_urls))
   < 2 ^ 63)%Z
  /\ sum_successful (main_summary main_numWorkers
                       (sched_results demo_env 0%Z main_numWorkers main_urls))
     = Z.of_nat (count_succeeded
                   (sched_results demo_env 0%Z main_numWorkers main_urls))
  /\ sum_failed (main_summary main_numWorkers
                   (sched_results demo_env 0%Z main_numWorkers main_urls))
     = Z.of_nat (count_failed
                   (sched_results demo_env 0%Z main_numWorkers main_urls))
  /\ (sum_successful (main_summary main_numWorkers
                        (sched_results demo_env 0%Z main_numWorkers main_urls))
      + sum_failed (main_summary main_numWorkers
                      (sched_results demo_env 0%Z main_numWorkers main_urls))
      = sum_processed (main_summary main_numWorkers
                         (sched_results demo_env 0%Z main_numWorkers main_urls)))%Z.
Proof.
  assert (Z.of_nat (length (sched_results demo_env 0%Z main_numWorkers main_urls))
          < 2 ^ 63)%Z as Hlen by (vm_compute; reflexivity).
  split; [exact Hlen|].
  exact (summary_counts main_numWorkers _ Hlen).
Defined.

(** X9 on concrete data. *)
Lemma summary_order_independent_witness :
  sched_results demo_env 0%Z main_numWorkers main_urls
  ≡ₚ reverse (sched_results demo_env 0%Z main_numWorkers main_urls)
  /\ main_summary main_numWorkers
       (sched_results demo_env 0%Z main_numWorkers main_urls)
     = main_summary main_numWorkers
         (reverse (sched_results demo_env 0%Z main_numWorkers main_urls)).
Proof.
  assert (sched_results demo_env 0%Z main_numWorkers main_urls
          ≡ₚ reverse (sched_results demo_env 0%Z main_numWorkers main_urls))
    as Hp by (symmetry; apply reverse_Permutation).
  split; [exact Hp|].
  exact (summary_order_independent main_numWorkers _ _ Hp).
Defined.

(** X10 on concrete data. *)
Lemma totalProcessingTime_sum_witness :
  (- 2 ^ 63
   <= sum_durations (sched_results demo_env 0%Z main_numWorkers main_urls)
   < 2 ^ 63)%Z
  /\ totalProcessingTime (sched_results demo_env 0%Z main_numWorkers main_urls)
     = sum_durations (sched_results demo_env 0%Z main_numWorkers main_urls).
Proof.
  assert (- 2 ^ 63
          <= sum_durations (sched_results demo_env 0%Z main_numWorkers main_urls)
          < 2 ^ 63)%Z as Hr by (vm_compute; split; [discriminate|reflexivity]).
  split; [exact Hr|].
  exact (proj2 (totalProcessingTime_sum _) Hr).
Defined.

(** X7 on concrete data. *)
Lemma resultCollector_output_witness :
  (Z.of_nat (length (sched_results demo_env 0%Z main_numWorkers main_urls))
   < 2 ^ 63)%Z
  /\ (resultCollector (sched_results demo_env 0%Z main_numWorkers main_urls)).2
     = sched_results demo_env 0%Z main_numWorkers main_urls
  /\ length (List.filter is_error_line
               (resultCollector
                  (sched_results demo_env 0%Z main_numWorkers main_urls)).1)
     = count_failed (sched_results demo_env 0%Z main_numWorkers main_urls).
Proof.
  assert (Z.of_nat (length (sched_results demo_env 0%Z main_numWorkers main_urls))
          < 2 ^ 63)%Z as Hlen by (vm_compute; reflexivity).
  split; [exact Hlen|]. split.
  - exact (f_equal snd (proj1 (resultCollector_output _ Hlen))).
  - exact (proj2 (resultCollector_output _ Hlen)).
Defined.

(** X1 on concrete data. *)
Lemma wg_counter_bounds_witness :
  run (E := demo_env) main_numWorkers main_urls midrun_acts init
  = Some (midrun_end.1, midrun_end.2)
  /\ wg midrun_end.2 = 4%Z
  /\ (0 <= wg midrun_end.2 <= Z.max 0 main_numWorkers)%Z.
Proof.
  assert (run (E := demo_env) main_numWorkers main_urls midrun_acts init
          = Some (midrun_end.1, midrun_end.2)) as Hrun
    by (vm_compute; reflexivity).
  split; [exact Hrun|]. split; [vm_compute; reflexivity|].
  exact (proj2 (wg_counter_bounds (E := demo_env) _ _ _ _ _ Hrun)).
Defined.

(** X2 on concrete data. *)
Lemma tasks_in_flight_bounded_witness :
  run (E := demo_env) main_numWorkers main_urls midrun_acts init
  = Some (midrun_end.1, midrun_end.2)
  /\ length (fed midrun_end.1)
     = length (arrivals midrun_end.1)
       + length (workers midrun_end.2 ≫= inflight)
  /\ length (workers midrun_end.2 ≫= inflight) <= length (workers midrun_end.2)
  /\ (Z.of_nat (length (workers midrun_end.2)) <= Z.max 0 main_numWorkers)%Z.
Proof.
  assert (run (E := demo_env) main_numWorkers main_urls midrun_acts init
          = Some (midrun_end.1, midrun_end.2)) as Hrun
    by (vm_compute; reflexivity).
  split; [exact Hrun|].
  exact (proj2 (tasks_in_flight_bounded (E := demo_env) _ _ _ _ _ Hrun)).
Defined.

(** X3 on concrete data. *)
Lemma clean_shutdown_witness :
  (1 <= main_numWorkers)%Z
  /\ run (E := demo_env) main_numWorkers main_urls
         (sched_acts demo_env 0%Z main_numWorkers main_urls) init
     = Some (sched_trace demo_env 0%Z main_numWorkers main_urls,
             sched_state demo_env 0%Z main_numWorkers main_urls)
  /\ is_finished (sched_state demo_env 0%Z main_numWorkers main_urls) = true
  /\ feeder (sched_state demo_env 0%Z main_numWorkers main_urls) = Some FExited
  /\ forall a, step (E := demo_env) main_numWorkers main_urls a
                 (sched_state demo_env 0%Z main_numWorkers main_urls) = None.
Proof.
  assert (1 <= main_numWorkers)%Z as HN by (unfold main_numWorkers; lia).
  assert (run (E := demo_env) main_numWorkers main_urls
              (sched_acts demo_env 0%Z main_numWorkers main_urls) init
          = Some (sched_trace demo_env 0%Z main_numWorkers main_urls,
                  sched_state demo_env 0%Z main_numWorkers main_urls)) as Hrun
    by (vm_compute; reflexivity).
  assert (is_finished (sched_state demo_env 0%Z main_numWorkers main_urls)
          = true) as Hf by (vm_compute; reflexivity).
  split; [exact HN|]. split; [exact Hrun|]. split; [exact Hf|].
  destruct (clean_shutdown (E := demo_env) _ _ _ _ _ HN Hrun Hf)
    as (Hfd & _ & _ & _ & _ & _ & _ & _ & Hterm).
  exact (conj Hfd Hterm).
Defined.

(** X4 on concrete data. *)
Lemma no_workers_feeder_blocked_witness :
  (0 <= 0)%Z /\ main_urls <> []
  /\ run (E := demo_env) 0 main_urls (sched_acts demo_env 0%Z 0 main_urls) init
     = Some (sched_trace demo_env 0%Z 0 main_urls,
             sched_state demo_env 0%Z 0 main_urls)
  /\ urlClosed (sched_state demo_env 0%Z 0 main_urls) = false
  /\ scrapes (sched_trace demo_env 0%Z 0 main_urls) = [].
Proof.
  assert (0 <= 0)%Z as HN by lia.
  assert (main_urls <> []) as Hne by discriminate.
  assert (run (E := demo_env) 0 main_urls
              (sched_acts demo_env 0%Z 0 main_urls) init
          = Some (sched_trace demo_env 0%Z 0 main_urls,
                  sched_state demo_env 0%Z 0 main_urls)) as Hrun
    by (vm_compute; reflexivity).
  split; [exact HN|]. split; [exact Hne|]. split; [exact Hrun|].
  destruct (no_workers_feeder_blocked (E := demo_env) _ _ _ _ _ HN Hne Hrun)
    as (Hu & _ & Hs & _).
  exact (conj Hu Hs).
Defined.

(** X5 on concrete data. *)
Lemma empty_list_empty_collection_witness :
  run (E := demo_env) main_numWorkers []
      (sched_acts demo_env 0%Z main_numWorkers []) init
  = Some (sched_trace demo_env 0%Z main_numWorkers [],
          sched_state demo_env 0%Z main_numWorkers [])
  /\ main (sched_state demo_env 0%Z main_numWorkers []) = MFinished []
  /\ scrapes (sched_trace demo_env 0%Z main_numWorkers []) = [].
Proof.
  assert (run (E := demo_env) main_numWorkers []
              (sched_acts demo_env 0%Z main_numWorkers []) init
          = Some (sched_trace demo_env 0%Z main_numWorkers [],
                  sched_state demo_env 0%Z main_numWorkers [])) as Hrun
    by (vm_compute; reflexivity).
  split; [exact Hrun|]. split; [vm_compute; reflexivity|].
  exact (proj1 (proj2 (empty_list_empty_collection (E := demo_env) _ 0%Z
                         _ _ _ Hrun))).
Defined.

(** X6 on concrete data. *)
Lemma results_independent_of_schedule_witness :
  (forall url w, Error (scrapeURL (E := demo_env) url w).1 = demo_outcome url)
  /\ (1 <= main_numWorkers)%Z
  /\ run (E := demo_env) main_numWorkers main_urls
         (sched_acts demo_env 0%Z main_numWorkers main_urls) init
     = Some (sched_trace demo_env 0%Z main_numWorkers main_urls,
             sched_state demo_env 0%Z main_numWorkers main_urls)
  /\ main (sched_state demo_env 0%Z main_numWorkers main_urls)
     = MFinished (sched_results demo_env 0%Z main_numWorkers main_urls)
  /\ Error <$> sched_results demo_env 0%Z main_numWorkers main_urls
     ≡ₚ demo_outcome <$> main_urls.
Proof.
  assert (forall url w,
            Error (scrapeURL (E := demo_env) url w).1 = demo_outcome url) as Hg.
  { intros url w. unfold scrapeURL, demo_outcome. simpl. unfold demo_Get.
    destruct (decide (url = "https://httpbin.org/delay/3")); reflexivity. }
  assert (1 <= main_numWorkers)%Z as HN by (unfold main_numWorkers; lia).
  assert (run (E := demo_env) main_numWorkers main_urls
              (sched_acts demo_env 0%Z main_numWorkers main_urls) init
          = Some (sched_trace demo_env 0%Z main_numWorkers main_urls,
                  sched_state demo_env 0%Z main_numWorkers main_urls)) as Hrun
    by (vm_compute; reflexivity).
  assert (main (sched_state demo_env 0%Z main_numWorkers main_urls)
          = MFinished (sched_results demo_env 0%Z main_numWorkers main_urls)) as Hm
    by (vm_compute; reflexivity).
  split; [exact Hg|]. split; [exact HN|]. split; [exact Hrun|]. split; [exact Hm|].
  exact (results_independent_of_schedule (E := demo_env) Error demo_outcome
           _ _ _ _ _ _ Hg HN Hrun Hm).
Defined.

(** X11 on concrete data. *)
Lemma summary_of_run_witness :
  (1 <= main_numWorkers)%Z /\ (Z.of_nat (length main_urls) < 2 ^ 63)%Z
  /\ run (E := demo_env) main_numWorkers main_urls
         (sched_acts demo_env 0%Z main_numWorkers main_urls) init
     = Some (sched_trace demo_env 0%Z main_numWorkers main_urls,
             sched_state demo_env 0%Z main_numWorkers main_urls)
  /\ main (sched_state demo_env 0%Z main_numWorkers main_urls)
     = MFinished (sched_results demo_env 0%Z main_numWorkers main_urls)
  /\ sum_processed (main_summary main_numWorkers
                      (sched_results demo_env 0%Z main_numWorkers main_urls))
     = Z.of_nat (length main_urls).
Proof.
  assert (1 <= main_numWorkers)%Z as HN by (unfold main_numWorkers; lia).
  assert (Z.of_nat (length main_urls) < 2 ^ 63)%Z as Hlen
    by (vm_compute; reflexivity).
  assert (run (E := demo_env) main_numWorkers main_urls
              (sched_acts demo_env 0%Z main_numWorkers main_urls) init
          = Some (sched_trace demo_env 0%Z main_numWorkers main_urls,
                  sched_state demo_env 0%Z main_numWorkers main_urls)) as Hrun
    by (vm_compute; reflexivity).
  assert (main (sched_state demo_env 0%Z main_numWorkers main_urls)
          = MFinished (sched_results demo_env 0%Z main_numWorkers main_urls)) as Hm
    by (vm_compute; reflexivity).
  split; [exact HN|]. split; [exact Hlen|]. split; [exact Hrun|]. split; [exact Hm|].
  exact (proj1 (summary_of_run (E := demo_env) _ _ _ _ _ _ HN Hlen Hrun Hm)).
Defined.

(** X13 on concrete data. *)
Lemma handleWS_registers_witness :
  bytes_of "yo" ∈ chunks_read chat_reads
  /\ mkWriter 3%positive (bytes_of "yo")
     ∈ (handleWS chat_server 3%positive chat_reads).1.2.
Proof.
  assert (bytes_of "yo" ∈ chunks_read chat_reads) as Hin
    by (right; left).
  split; [exact Hin|].
  exact (proj1 (proj2 (proj2 (proj2
           (handleWS_registers chat_server 3%positive chat_reads)))) _ Hin).
Defined.

(** X14 on concrete data. *)
Lemma App_messages_and_status_witness :
  opened (take 2 page_events) = true
  /\ isConnected (App_run App_init
                    (take 2 page_events ++ OnClose :: [OnMessage "late"])).1
     = true.
Proof.
  assert (opened (take 2 page_events) = true) as Ho by reflexivity.
  split; [exact Ho|].
  exact (proj2 (proj2 (App_messages_and_status page_events)) _ _ Ho).
Defined.

(** X15 on concrete data. *)
Lemma App_submit_sends_witness :
  opened page_events = true /\ "again" <> EmptyString
  /\ (App_run App_init (page_events ++ [OnSubmit (Some "again")])).2
     = (App_run App_init page_events).2 ++ ["again"].
Proof.
  assert (opened page_events = true) as Ho by reflexivity.
  assert ("again" <> EmptyString) as Hm by discriminate.
  split; [exact Ho|]. split; [exact Hm|].
  exact (proj2 (proj2 (proj2 (App_submit_sends page_events "again"))) Ho Hm).
Defined.
